(** * megadl (tools/dl.c): download of exported mega.nz links

    A shallow embedding of [src/tools/dl.c] and the properties of its link
    parsers, retry loops, tree synchronisation and entry point.

    Layout of the file:
    - [Chars]: ASCII case folding as used by caseless matching;
    - [Regex]: the fragment of PCRE syntax the two link patterns use, with a
      backtracking matcher ([g_regex_match], [g_match_info_fetch]);
    - [Links]: [file_regex], [folder_regex] and the classification [main]
      performs on every argument;
    - [Dl]: the program itself ([status_callback], [dl_sync_file],
      [dl_sync_dir], [main]) over an explicit world: local file system,
      session, globals and the trace of observable calls;
    - the theorems. *)

From Stdlib Require Import ZArith Ascii String Lia.
From stdpp Require Import base gmap list strings pretty.

Set Warnings "-register-all".
Open Scope Z_scope.

(** ** Characters *)

Module Chars.

Definition code (c : ascii) : N := N_of_ascii c.

Definition between (lo hi c : ascii) : bool :=
  ((code lo <=? code c) && (code c <=? code hi))%N.

Definition is_upper (c : ascii) : bool := between "A" "Z" c.
Definition is_lower (c : ascii) : bool := between "a" "z" c.

(** The lower-case table of the C locale ([lcc] in PCRE's tables). *)
Definition to_lower (c : ascii) : ascii :=
  if is_upper c then ascii_of_N (code c + 32) else c.

Definition to_upper (c : ascii) : ascii :=
  if is_lower c then ascii_of_N (code c - 32) else c.

(** The flipped-case table ([fcc]): letters change case, the rest stays. *)
Definition other_case (c : ascii) : ascii :=
  if is_upper c then to_lower c else to_upper c.



(** The 256 characters, for facts settled by running through them. *)
Definition all_ascii : list ascii := ascii_of_nat <$> seq 0 256.

Definition LF : ascii := ascii_of_N 10.
Definition VT : ascii := ascii_of_N 11.
Definition FF : ascii := ascii_of_N 12.
Definition CR : ascii := ascii_of_N 13.

End Chars.

(** ** Regular expressions

    GLib's [GRegex] wraps PCRE.  Only the constructs that occur in the two
    patterns of [main] are modelled: anchors, literal characters, a character
    class of ranges, concatenation, the greedy [?], the counted repetition
    [{n}] and capturing groups.  Subjects are byte strings; caseless matching
    folds the case of ASCII letters. *)

Module Regex.
Import Chars.

Inductive regex : Type :=
| REps                                  (* empty pattern *)
| RBol                                  (* ^ *)
| REol                                  (* $ *)
| RChr (c : ascii)                      (* a literal character *)
| RSet (ranges : list (ascii * ascii))  (* [a-z0-9_-] and the like *)
| RSeq (r1 r2 : regex)                  (* r1 r2 *)
| ROpt (r : regex)                      (* r? or (?:r)?, greedy *)
| RRep (n : nat) (r : regex)            (* r{n} *)
| RCap (i : nat) (r : regex).           (* the i-th capturing group (r) *)

Definition rseq (rs : list regex) : regex := foldr RSeq REps rs.
Definition rlit (s : string) : regex := rseq (RChr <$> list_ascii_of_string s).

(** Capture [i] as a pair of offsets (start, end) into the subject. *)
Definition captures := list (nat * (nat * nat)).

(** Flags of [g_regex_new] that matter here. *)
Record flags := { caseless : bool; dollar_endonly : bool }.

Definition chr_eq (f : flags) (c x : ascii) : bool :=
  if caseless f then bool_decide (to_lower c = to_lower x)
  else bool_decide (c = x).

Definition in_ranges (rs : list (ascii * ascii)) (x : ascii) : bool :=
  existsb (fun r => between r.1 r.2 x) rs.

Definition set_mem (f : flags) (rs : list (ascii * ascii)) (x : ascii) : bool :=
  if caseless f then in_ranges rs x || in_ranges rs (other_case x)
  else in_ranges rs x.

(** Newline sequences.  [g_regex_new] selects PCRE_NEWLINE_ANY unless a
    G_REGEX_NEWLINE_* flag is given, and UTF-8 mode unless G_REGEX_RAW is:
    CR, LF, CRLF, VT, FF, NEL (U+0085), LS (U+2028) and PS (U+2029). *)
Definition newlines : list (list ascii) :=
  [ [LF]; [CR]; [CR; LF]; [VT]; [FF];
    [ascii_of_N 194; ascii_of_N 133];
    [ascii_of_N 226; ascii_of_N 128; ascii_of_N 168];
    [ascii_of_N 226; ascii_of_N 128; ascii_of_N 169] ].

Definition is_newline (s : list ascii) : bool :=
  bool_decide (s ∈ newlines).

(** [$]: at the very end of the subject; without G_REGEX_DOLLAR_ENDONLY
    also immediately before a newline that ends the subject. *)
Definition at_dollar (f : flags) (rest : list ascii) : bool :=
  match rest with
  | [] => true
  | _ => negb (dollar_endonly f) && is_newline rest
  end.

(** The continuation receives the offset reached, the rest of the subject
    and the captures set so far; [None] makes the matcher backtrack. *)
Definition cont := nat → list ascii → captures → option captures.

Fixpoint rx_match (f : flags) (r : regex)
  : nat → list ascii → captures → cont → option captures :=
  match r with
  | REps => fun p s cs k => k p s cs
  | RBol => fun p s cs k => if bool_decide (p = 0%nat) then k p s cs else None
  | REol => fun p s cs k => if at_dollar f s then k p s cs else None
  | RChr c => fun p s cs k =>
      match s with
      | x :: s' => if chr_eq f c x then k (S p) s' cs else None
      | [] => None
      end
  | RSet rs => fun p s cs k =>
      match s with
      | x :: s' => if set_mem f rs x then k (S p) s' cs else None
      | [] => None
      end
  | RSeq r1 r2 => fun p s cs k =>
      rx_match f r1 p s cs (fun p' s' cs' => rx_match f r2 p' s' cs' k)
  | ROpt r1 => fun p s cs k =>
      match rx_match f r1 p s cs k with
      | Some m => Some m
      | None => k p s cs
      end
  | RRep n r1 => fun p s cs k =>
      Nat.iter n (fun kk p0 s0 cs0 => rx_match f r1 p0 s0 cs0 kk) k p s cs
  | RCap i r1 => fun p s cs k =>
      rx_match f r1 p s cs (fun p' s' cs' => k p' s' ((i, (p, p')) :: cs'))
  end.

(** The unanchored search of [g_regex_match]: the leftmost start offset at
    which the pattern matches.  Group 0 is the whole match. *)
Fixpoint rx_search (f : flags) (r : regex) (p : nat) (s : list ascii)
  : option captures :=
  match rx_match f r p s [] (fun p' _ cs => Some ((0%nat, (p, p')) :: cs)) with
  | Some m => Some m
  | None =>
      match s with
      | [] => None
      | _ :: s' => rx_search f r (S p) s'
      end
  end.


Record GRegex := { rx_flags : flags; rx_pattern : regex }.

Record GMatchInfo := { mi_subject : list ascii; mi_groups : captures }.

Fixpoint assoc (i : nat) (cs : captures) : option (nat * nat) :=
  match cs with
  | [] => None
  | (j, se) :: cs' => if bool_decide (i = j) then Some se else assoc i cs'
  end.

Definition g_regex_match (re : GRegex) (subject : string) : option GMatchInfo :=
  let s := list_ascii_of_string subject in
  match rx_search (rx_flags re) (rx_pattern re) 0 s with
  | Some cs => Some {| mi_subject := s; mi_groups := cs |}
  | None => None
  end.

(** [g_match_info_fetch]: the text of group [i]; the empty string for a
    group that took no part in the match. *)
Definition g_match_info_fetch (m : GMatchInfo) (i : nat) : string :=
  match assoc i (mi_groups m) with
  | Some (a, b) => string_of_list_ascii (take (b - a) (drop a (mi_subject m)))
  | None => EmptyString
  end.

End Regex.

(** ** The two link patterns and the classification of an argument *)

Module Links.
Import Chars Regex.

Definition G_REGEX_CASELESS : flags :=
  {| caseless := true; dollar_endonly := false |}.

(** [[a-z0-9_-]] *)
Definition token : regex :=
  RSet [("a", "z"); ("0", "9"); ("_", "_"); ("-", "-")]%char.

(** ["^https?://mega(?:\\.co)?\\.nz/#!([a-z0-9_-]{8})!([a-z0-9_-]{43})$"] *)
Definition file_regex : GRegex :=
  {| rx_flags := G_REGEX_CASELESS;
     rx_pattern :=
       rseq [ RBol; rlit "http"; ROpt (RChr "s"); rlit "://mega";
              ROpt (rlit ".co"); rlit ".nz/#!";
              RCap 1 (RRep 8 token); RChr "!"; RCap 2 (RRep 43 token);
              REol ] |}.

(** ["^https?://mega(?:\\.co)?\\.nz/#F!([a-z0-9_-]{8})!([a-z0-9_-]{22})$"] *)
Definition folder_regex : GRegex :=
  {| rx_flags := G_REGEX_CASELESS;
     rx_pattern :=
       rseq [ RBol; rlit "http"; ROpt (RChr "s"); rlit "://mega";
              ROpt (rlit ".co"); rlit ".nz/#F!";
              RCap 1 (RRep 8 token); RChr "!"; RCap 2 (RRep 22 token);
              REol ] |}.

(** What the body of the loop of [main] makes of one link: the file
    pattern is tried first, then the folder pattern. *)
Inductive reference : Type :=
| FileRef (handle key : string)
| FolderRef (handle key : string)
| Invalid.

Definition classify (link : string) : reference :=
  match g_regex_match file_regex link with
  | Some m1 => FileRef (g_match_info_fetch m1 1) (g_match_info_fetch m1 2)
  | None =>
      match g_regex_match folder_regex link with
      | Some m2 => FolderRef (g_match_info_fetch m2 1) (g_match_info_fetch m2 2)
      | None => Invalid
      end
  end.

(** *** Vocabulary of the statements about links *)

Abbreviation chars := list_ascii_of_string.

(** The alphabet of handles and keys, [[A-Za-z0-9_-]]. *)
Definition alphabet (c : ascii) : bool :=
  is_lower c || is_upper c || between "0" "9" c
  || bool_decide (c = "_"%char) || bool_decide (c = "-"%char).

(** Strings of exactly [n] characters of the alphabet. *)
Definition token_string (n : nat) (s : string) : Prop :=
  String.length s = n ∧ forallb alphabet (chars s) = true.

(** The schemes and hosts of a link. *)
Definition spelling (scheme host : string) : Prop :=
  scheme ∈ ["http"; "https"]%string ∧ host ∈ ["mega.nz"; "mega.co.nz"]%string.




(** The two patterns share their shape: a head up to the marker ([!] or
    [F!]) and a tail with the two groups. *)
Definition head_pattern (marker : string) (tl : regex) : regex :=
  RSeq RBol (RSeq (rlit "http") (RSeq (ROpt (RChr "s")) (RSeq (rlit "://mega")
    (RSeq (ROpt (rlit ".co")) (RSeq (rlit (".nz/#" +:+ marker)) tl))))).

Definition tail_pattern (n : nat) : regex :=
  rseq [RCap 1 (RRep 8 token); RChr "!"; RCap 2 (RRep n token); REol].


End Links.

(** ** The program *)

Module Dl.
Import Chars Links.

Definition nl : string := String LF EmptyString.
Definition cr : string := String CR EmptyString.

(** *** Machine integers *)

(** The value of a two's complement integer of [w] bits. *)
Definition wrap (w : Z) (z : Z) : Z := (z + 2 ^ (w - 1)) mod 2 ^ w - 2 ^ (w - 1).
Definition gint (z : Z) : Z := wrap 32 z.
Definition gint64 (z : Z) : Z := wrap 64 z.

(** *** GLib: errors, files *)

Record GError := { domain : Z; code : Z; message : string }.

Definition g_error_matches (err : GError) (dom c : Z) : bool :=
  (domain err =? dom) && (code err =? c).

Inductive GFileType : Type :=
| G_FILE_TYPE_UNKNOWN
| G_FILE_TYPE_REGULAR
| G_FILE_TYPE_DIRECTORY
| G_FILE_TYPE_SYMBOLIC_LINK
| G_FILE_TYPE_SPECIAL
| G_FILE_TYPE_SHORTCUT
| G_FILE_TYPE_MOUNTABLE.

#[global] Instance GFileType_eq_dec : EqDecision GFileType.
Proof. solve_decision. Defined.

(** The local file system: the type of the object found at each path
    (without following symbolic links); a path that is absent names
    nothing. *)
Abbreviation FS := (gmap string GFileType).

(** A [GFile] is the path it stands for. *)
Definition GFile : Type := string.
Definition g_file_new_for_path (path : string) : GFile := path.
Definition g_file_get_path (file : GFile) : string := file.
Definition g_file_get_child (file : GFile) (name : string) : GFile :=
  file +:+ "/" +:+ name.

Definition g_file_query_exists (fs : FS) (file : GFile) : bool :=
  bool_decide (is_Some (fs !! file)).

Definition g_file_query_file_type (fs : FS) (file : GFile) : GFileType :=
  default G_FILE_TYPE_UNKNOWN (fs !! file).

(** *** The session library ([mega.h]) and the tool helpers ([tools.h]) *)

Inductive mega_node : Type :=
| MegaNode (name : string) (type : Z) (children : list mega_node).

Definition node_name (n : mega_node) : string :=
  match n with MegaNode name _ _ => name end.
Definition node_type (n : mega_node) : Z :=
  match n with MegaNode _ type _ => type end.
Definition node_children (n : mega_node) : list mega_node :=
  match n with MegaNode _ _ children => children end.

Inductive mega_status_data : Type :=
| MEGA_STATUS_PROGRESS (total done : Z)
| MEGA_STATUS_FILEINFO (name : string)
| MEGA_STATUS_DATA (buf : string).

(** What a transfer call of the session leaves behind: the session and the
    local files after it, the status events it delivered to the watcher
    while it ran, and the error it set ([None] when it returned TRUE). *)
Record xfer (S : Type) := Xfer {
  x_sess : S;
  x_fs : FS;
  x_events : list mega_status_data;
  x_err : option GError
}.
Arguments Xfer {S} _ _ _ _.
Arguments x_sess {S} _.
Arguments x_fs {S} _.
Arguments x_events {S} _.
Arguments x_err {S} _.

(** Everything [dl.c] uses and does not define: constants of [mega.h] and
    [tools.h], the session operations of the library, the helpers of
    [tools.c], and the verdict of the operating system on the creation of
    a directory.  The program is a function of these. *)
Record env := Env {
  Session : Type;
  MEGA_ERROR : Z;
  MEGA_ERROR_OTHER : Z;
  ESC_CLREOL : string;
  tool_convert_filename : string → bool → string;
  tool_start_session : Z → Session;
  mega_session_dl :
    Session → FS → string → string → option string → xfer Session;
  mega_session_get : Session → FS → string → string → xfer Session;
  mega_session_open_exp_folder :
    Session → string → string → Session * option GError;
  mega_session_ls : Session → string → bool → list mega_node;
  mega_node_get_path_dup : mega_node → string;
  make_directory_error : FS → string → option GError
}.

(** [g_file_make_directory]: fails on a path that exists and whenever the
    system refuses; otherwise the path becomes a directory. *)
Definition g_file_make_directory (E : env) (fs : FS) (file : GFile)
  : FS + GError :=
  match fs !! file with
  | Some _ => inr {| domain := 0; code := 2; message := "File exists" |}
  | None =>
      match make_directory_error E fs file with
      | Some err => inr err
      | None => inl (<[file := G_FILE_TYPE_DIRECTORY]> fs)
      end
  end.

(** *** Observable calls *)

Inductive event : Type :=
| Print (text : string)                      (* g_print *)
| PrintErr (text : string)                   (* g_printerr *)
| Fwrite (buf : string)                      (* fwrite, fflush on stdout *)
| ShowProgress (file : option string) (data : mega_status_data)
| Usleep (microseconds : Z)                  (* g_usleep *)
| StartSession (flags : Z)                   (* tool_start_session *)
| WatchStatus                                (* mega_session_watch_status *)
| Fini (with_session : bool)                 (* tool_fini *)
| SessionDl (handle key : string) (path : option string) (err : option GError)
| SessionGet (local_path remote_path : string) (err : option GError)
| OpenExpFolder (handle key : string) (err : option GError)
| SessionLs (path : string)
| MakeDirectory (path : string) (err : option GError).

(** *** Globals *)

Record globals := Globals {
  opt_path : string;
  opt_stream : bool;
  opt_noprogress : bool;
  opt_print_names : bool;
  cur_file : option string   (* NULL until the first FILEINFO *)
}.

Definition set_cur_file (name : option string) (g : globals) : globals :=
  {| opt_path := opt_path g; opt_stream := opt_stream g;
     opt_noprogress := opt_noprogress g;
     opt_print_names := opt_print_names g; cur_file := name |}.

(** [%s] of a possibly NULL string. *)
Definition fmt_s (s : option string) : string := default "(null)"%string s.

Definition when (b : bool) (out : list event) : list event :=
  if b then out else [].

Definition is_progress (d : mega_status_data) : bool :=
  match d with MEGA_STATUS_PROGRESS _ _ => true | _ => false end.

Definition status_callback (data : mega_status_data) (g : globals)
  : bool * globals * list event :=
  let out1 :=
    match data with
    | MEGA_STATUS_DATA buf => when (opt_stream g) [Fwrite buf]
    | _ => []
    end in
  let g1 :=
    match data with
    | MEGA_STATUS_FILEINFO name => set_cur_file (Some name) g
    | _ => g
    end in
  let out2 :=
    when (negb (opt_noprogress g1) && is_progress data)
         [ShowProgress (cur_file g1) data] in
  (false, g1, out1 ++ out2).

(** The session calls the watcher once per status event, in order, before
    the transfer call returns. *)
Fixpoint deliver (evs : list mega_status_data) (g : globals)
  : globals * list event :=
  match evs with
  | [] => (g, [])
  | d :: evs' =>
      let '(_, g1, out1) := status_callback d g in
      let '(g2, out2) := deliver evs' g1 in
      (g2, out1 ++ out2)
  end.

Section Program.
Context (E : env).

Record world := World {
  g : globals;
  fs : FS;
  s : Session E
}.

Definition set_fs (fs' : FS) (w : world) : world :=
  {| g := g w; fs := fs'; s := s w |}.

(** The state after a transfer call: the watcher has run on every
    status event. *)
Definition after_xfer (x : xfer (Session E)) (w : world)
  : world * list event :=
  let '(g1, out) := deliver (x_events x) (g w) in
  ({| g := g1; fs := x_fs x; s := x_sess x |}, out).

Definition retry_notice (attempts sleep_amt : Z) : list event :=
  when (0 <? attempts)
    [ Print ("Attempt #" +:+ pretty attempts
             +:+ " failed, trying again in "
             +:+ pretty (Z.quot sleep_amt 1000000) +:+ " seconds..." +:+ nl);
      Usleep sleep_amt ].

Definition next_sleep (attempts sleep_amt : Z) : Z :=
  if 0 <? attempts then gint64 (Z.shiftl sleep_amt 1) else sleep_amt.

(** The [while (attempts < 5)] loop of [dl_sync_file].  [fuel] bounds
    the number of iterations; 5 is enough ([get_loop_fuel]). *)
Fixpoint get_loop (fuel : nat) (local_path remote_path : string)
    (attempts sleep_amt : Z) (status : bool) (w : world)
  : bool * world * list event :=
  if negb (attempts <? 5) then (status, w, [])
  else
    match fuel with
    | O => (status, w, [])
    | S fuel' =>
        let out_wait := retry_notice attempts sleep_amt in
        let sleep_amt := next_sleep attempts sleep_amt in
        let x := mega_session_get E (s w) (fs w) local_path remote_path in
        let '(w1, out_cb) := after_xfer x w in
        let out_call := SessionGet local_path remote_path (x_err x) :: out_cb in
        match x_err x with
        | Some local_err =>
            let out_fail :=
              when (negb (opt_noprogress (g w1)))
                   [Print (cr +:+ ESC_CLREOL E)]
              ++ [PrintErr ("ERROR: Download failed for " +:+ remote_path
                            +:+ ": " +:+ message local_err +:+ nl)] in
            let attempts := gint (attempts + 1) in
            if g_error_matches local_err (MEGA_ERROR E) (MEGA_ERROR_OTHER E)
            then (false, w1, out_wait ++ out_call ++ out_fail)
            else
              let '(status', w2, out) :=
                get_loop fuel' local_path remote_path attempts sleep_amt
                         false w1 in
              (status', w2, out_wait ++ out_call ++ out_fail ++ out)
        | None => (true, w1, out_wait ++ out_call)
        end
    end.

Definition dl_sync_file (node : mega_node) (file : GFile)
    (remote_path : string) (w : world) : bool * world * list event :=
  let local_path := g_file_get_path file in
  if g_file_query_exists (fs w) file
  then (false, w,
        [PrintErr ("ERROR: File already exists at " +:+ local_path +:+ nl)])
  else
    let out_f :=
      when (negb (opt_noprogress (g w))) [Print ("F " +:+ local_path +:+ nl)] in
    let '(status, w1, out) :=
      get_loop 5 local_path remote_path 0 2000000 true w in
    if negb status then (false, w1, out_f ++ out)
    else
      (true, w1,
       out_f ++ out
       ++ when (negb (opt_noprogress (g w1))) [Print (cr +:+ ESC_CLREOL E)]
       ++ when (opt_print_names (g w1)) [Print (local_path +:+ nl)]).

(** The loop over the children of a directory node; [sync] is the step
    taken for one child. *)
Fixpoint sync_children
    (sync : mega_node → GFile → string → world → bool * world * list event)
    (file : GFile) (remote_path : string)
    (children : list mega_node) (status : bool) (w : world)
  : bool * world * list event :=
  match children with
  | [] => (status, w, [])
  | child :: rest =>
      let child_remote_path := remote_path +:+ "/" +:+ node_name child in
      let child_file := g_file_get_child file (node_name child) in
      let '(ok, w1, out1) := sync child child_file child_remote_path w in
      let status := if negb ok then false else status in
      let '(status', w2, out2) :=
        sync_children sync file remote_path rest status w1 in
      (status', w2, out1 ++ out2)
  end.

(** [mega_session_get_node_chilren] reads the children of a node off the
    session's copy of the remote tree: the [children] of the node. *)
Fixpoint dl_sync_dir (node : mega_node) (file : GFile)
    (remote_path : string) (w : world) : bool * world * list event :=
  let local_path := g_file_get_path file in
  let sync (child : mega_node) :=
    if node_type child =? 0 then dl_sync_file child else dl_sync_dir child in
  if negb (g_file_query_exists (fs w) file) then
    let out_d :=
      when (negb (opt_noprogress (g w))) [Print ("D " +:+ local_path +:+ nl)] in
    match g_file_make_directory E (fs w) file with
    | inr local_err =>
        (false, w,
         out_d ++
         [ MakeDirectory local_path (Some local_err);
           PrintErr ("ERROR: Can't create local directory " +:+ local_path
                     +:+ ": " +:+ message local_err +:+ nl) ])
    | inl fs' =>
        let '(status, w', out) :=
          sync_children sync file remote_path (node_children node) true
                        (set_fs fs' w) in
        (status, w', out_d ++ MakeDirectory local_path None :: out)
    end
  else if negb (bool_decide (g_file_query_file_type (fs w) file
                             = G_FILE_TYPE_DIRECTORY)) then
    (false, w,
     [PrintErr ("ERROR: Can't create local directory " +:+ local_path
                +:+ ": file exists" +:+ nl)])
  else
    sync_children sync file remote_path (node_children node) true w.

(** The step [dl_sync_dir] takes for a child, by its type. *)
Definition sync_child (child : mega_node) :=
  if node_type child =? 0 then dl_sync_file child else dl_sync_dir child.

(** The retry loop of [main] around [mega_session_dl]; [status] is the
    exit status being accumulated. *)
Fixpoint dl_loop (fuel : nat) (link handle key : string)
    (attempts sleep_amt : Z) (status : Z) (w : world)
  : Z * world * list event :=
  if negb (attempts <? 5) then (status, w, [])
  else
    match fuel with
    | O => (status, w, [])
    | S fuel' =>
        let out_wait := retry_notice attempts sleep_amt in
        let sleep_amt := next_sleep attempts sleep_amt in
        let path :=
          if opt_stream (g w) then None else Some (opt_path (g w)) in
        let x := mega_session_dl E (s w) (fs w) handle key path in
        let '(w1, out_cb) := after_xfer x w in
        let out_call := SessionDl handle key path (x_err x) :: out_cb in
        match x_err x with
        | Some local_err =>
            let out_fail :=
              when (negb (opt_noprogress (g w1)))
                   [Print (cr +:+ ESC_CLREOL E +:+ nl)]
              ++ [PrintErr ("ERROR: Download failed for '" +:+ link
                            +:+ "': " +:+ message local_err +:+ nl)] in
            let attempts := gint (attempts + 1) in
            if g_error_matches local_err (MEGA_ERROR E) (MEGA_ERROR_OTHER E)
            then (1, w1, out_wait ++ out_call ++ out_fail)
            else
              let '(status', w2, out) :=
                dl_loop fuel' link handle key attempts sleep_amt 1 w1 in
              (status', w2, out_wait ++ out_call ++ out_fail ++ out)
        | None =>
            (0, w1,
             out_wait ++ out_call
             ++ when (negb (opt_noprogress (g w1)))
                  [Print (cr +:+ ESC_CLREOL E +:+ "Downloaded "
                          +:+ fmt_s (cur_file (g w1)) +:+ nl)]
             ++ when (opt_print_names (g w1))
                  [Print (fmt_s (cur_file (g w1)) +:+ nl)])
        end
    end.

(** The folder branch of the loop of [main], after the stream check. *)
Definition dl_folder (link handle key : string) (status : Z) (w : world)
  : Z * world * list event :=
  let '(s1, r) := mega_session_open_exp_folder E (s w) handle key in
  let w1 := {| g := g w; fs := fs w; s := s1 |} in
  match r with
  | Some local_err =>
      (1, w1,
       [ OpenExpFolder handle key r;
         PrintErr ("ERROR: Can't open folder '" +:+ link +:+ "': "
                   +:+ message local_err +:+ nl) ])
  | None =>
      let l := mega_session_ls E (s w1) "/" false in
      let out_open := [OpenExpFolder handle key r; WatchStatus; SessionLs "/"] in
      match l with
      | [root_node] =>
          let local_dir := g_file_new_for_path (opt_path (g w1)) in
          if bool_decide (g_file_query_file_type (fs w1) local_dir
                          = G_FILE_TYPE_DIRECTORY) then
            let node_path := mega_node_get_path_dup E root_node in
            let '(ok, w2, out) := dl_sync_dir root_node local_dir node_path w1 in
            (if negb ok then 1 else status, w2, out_open ++ out)
          else
            (1, w1,
             out_open ++
             [PrintErr ("ERROR: " +:+ opt_path (g w1)
                        +:+ " must be a directory" +:+ nl)])
      | _ =>
          (1, w1,
           out_open ++
           [PrintErr ("ERROR: EXP folder fs has multiple toplevel nodes? Weird!"
                      +:+ nl)])
      end
  end.

(** The [for] loop of [main] over av[1..ac-1].  A stream request for a
    folder link leaves the loop at once: [main] returns 1 from inside
    it, after [tool_fini]. *)
Fixpoint process_links (links : list string) (status : Z) (w : world)
  : Z * world * list event :=
  match links with
  | [] => (status, w, [])
  | av_i :: rest =>
      let link := tool_convert_filename E av_i false in
      match classify link with
      | FileRef handle key =>
          let '(status1, w1, out1) :=
            dl_loop 5 link handle key 0 2000000 status w in
          let '(status2, w2, out2) := process_links rest status1 w1 in
          (status2, w2, out1 ++ out2)
      | FolderRef handle key =>
          if opt_stream (g w) then
            (* tool_fini(s); return 1; *)
            (1, w, [PrintErr ("ERROR: Can't stream from a directory!" +:+ nl)])
          else
            let '(status1, w1, out1) := dl_folder link handle key status w in
            let '(status2, w2, out2) := process_links rest status1 w1 in
            (status2, w2, out1 ++ out2)
      | Invalid =>
          let out1 :=
            [PrintErr ("WARNING: Skipping invalid Mega download link: "
                       +:+ link +:+ nl)] in
          let '(status2, w2, out2) := process_links rest status w in
          (status2, w2, out1 ++ out2)
      end
  end.

End Program.

(** The command line after [tool_init] has taken the options out of it:
    the values of --path, --no-progress and --print-names, and the
    remaining arguments av[1], ..., av[ac-1]. *)
Record cmdline := Cmdline {
  arg_path : option string;
  arg_no_progress : bool;
  arg_print_names : bool;
  arg_links : list string
}.

(** The static initialisers of the globals, overridden by the options. *)
Definition tool_init (c : cmdline) : globals :=
  {| opt_path := default "."%string (arg_path c);
     opt_stream := false;
     opt_noprogress := arg_no_progress c;
     opt_print_names := arg_print_names c;
     cur_file := None |}.

Record outcome := Outcome {
  exit_status : Z;
  final_fs : FS;
  final_globals : globals;
  output : list event
}.

Definition main (E : env) (c : cmdline) (fs0 : FS) : outcome :=
  let g0 := tool_init c in
  let ac := Z.of_nat (1 + length (arg_links c)) in
  let g1 :=
    if String.eqb (opt_path g0) "-" then
      {| opt_path := opt_path g0; opt_stream := true; opt_noprogress := true;
         opt_print_names := opt_print_names g0; cur_file := cur_file g0 |}
    else g0 in
  if ac <? 2 then
    Outcome 1 fs0 g1
      [PrintErr ("ERROR: No links specified for download!" +:+ nl); Fini false]
  else if opt_stream g1 && negb (ac =? 2) then
    Outcome 1 fs0 g1
      [PrintErr ("ERROR: Can't stream from multiple files!" +:+ nl); Fini false]
  else
    let w := {| g := g1; fs := fs0; s := tool_start_session E 0 |} in
    let '(status, w', out) := process_links E (arg_links c) 0 w in
    Outcome status (fs E w') (g E w')
      ([StartSession 0; WatchStatus] ++ out ++ [Fini true]).



(** *** Vocabulary of the statements about runs *)

(** The calls that reach the session. *)
Definition is_session_call (e : event) : bool :=
  match e with
  | SessionDl _ _ _ _ | SessionGet _ _ _ | OpenExpFolder _ _ _ | SessionLs _ => true
  | _ => false
  end.

(** The calls that create local files or directories. *)
Definition is_creation (e : event) : bool :=
  match e with
  | SessionDl _ _ _ _ | SessionGet _ _ _ | MakeDirectory _ _ => true
  | _ => false
  end.

Definition is_print_err (e : event) : bool :=
  match e with PrintErr _ => true | _ => false end.

Definition fileinfo_name (d : mega_status_data) : option string :=
  match d with MEGA_STATUS_FILEINFO name => Some name | _ => None end.

(** The name of the most recent FILEINFO event of a sequence: the one
    among the later events if there is one, else that of the first. *)
Fixpoint latest_name (evs : list mega_status_data) : option string :=
  match evs with
  | [] => None
  | d :: evs' =>
      match latest_name evs' with
      | Some name => Some name
      | None => fileinfo_name d
      end
  end.

(** What a retry loop shows of itself: its attempts, each with the error
    the session set, and its waits in microseconds. *)
Inductive obs : Type :=
| Attempt (err : option GError)
| Wait (microseconds : Z).

Definition observe (e : event) : option obs :=
  match e with
  | SessionDl _ _ _ err | SessionGet _ _ err => Some (Attempt err)
  | Usleep us => Some (Wait us)
  | _ => None
  end.

Definition schedule (out : list event) : list obs := omap observe out.

Section Observations.
Context (E : env).

(** The split the loops make: the error that matches MEGA_ERROR_OTHER
    is permanent, any other is transient. *)
Definition transient (e : GError) : bool :=
  negb (g_error_matches e (MEGA_ERROR E) (MEGA_ERROR_OTHER E)).

Definition transient_failure (o : option GError) : Prop :=
  ∃ e, o = Some e ∧ transient e = true.

Definition all_transient (tr : list obs) : Prop :=
  ∀ o, Attempt o ∈ tr → transient_failure o.

Definition wait_before (attempts sleep_amt : Z) : list obs :=
  if 0 <? attempts then [Wait sleep_amt] else [].

(** The retry policy as an automaton over the number of failed attempts
    and the current back-off: the schedules that end in success, in
    giving up, or go on after a transient failure. *)
Inductive policy : Z → Z → list obs → bool → Prop :=
| policy_success a sl :
    policy a sl (wait_before a sl ++ [Attempt None]) true
| policy_give_up a sl e :
    transient e = false ∨ a = 4 →
    policy a sl (wait_before a sl ++ [Attempt (Some e)]) false
| policy_retry a sl e tr ok :
    transient e = true → a < 4 →
    policy (a + 1) (next_sleep a sl) tr ok →
    policy a sl (wait_before a sl ++ Attempt (Some e) :: tr) ok.

(** The retry bound, on the schedule [tr] of a loop and on whether it
    ended in success:
    - when every attempt fails with a transient error, there are five
      attempts, with waits of 2, 4, 8 and 16 seconds between them, and
      the loop gives up;
    - when the first attempt fails with a permanent error, it is the
      only one and no wait follows;
    - every wait follows an attempt that failed with a transient
      error. *)
Definition retry_bound (tr : list obs) (ok : bool) : Prop :=
  (all_transient tr →
     ok = false
     ∧ ∃ e1 e2 e3 e4 e5,
         tr = [ Attempt (Some e1); Wait 2000000;
                Attempt (Some e2); Wait 4000000;
                Attempt (Some e3); Wait 8000000;
                Attempt (Some e4); Wait 16000000;
                Attempt (Some e5) ])
  ∧ (∀ e tr', tr = Attempt (Some e) :: tr' → transient e = false →
       ok = false ∧ tr' = [])
  ∧ (∀ pre us post, tr = pre ++ Wait us :: post →
       ∃ pre' e, pre = pre' ++ [Attempt (Some e)] ∧ transient e = true).


(** The steps taken for the children of a directory, in order, each from
    the world its elder sibling left: result, world and output of each. *)
Fixpoint child_steps
    (sync : mega_node → GFile → string → world E → bool * world E * list event)
    (file : GFile) (remote_path : string)
    (children : list mega_node) (w : world E)
  : list (bool * world E * list event) :=
  match children with
  | [] => []
  | child :: rest =>
      let r :=
        sync child (g_file_get_child file (node_name child))
             (remote_path +:+ "/" +:+ node_name child) w in
      r :: child_steps sync file remote_path rest r.1.2
  end.

Definition step_ok (r : bool * world E * list event) : bool := r.1.1.
Definition step_world (r : bool * world E * list event) : world E := r.1.2.
Definition step_output (r : bool * world E * list event) : list event := r.2.

(** The world after a sequence of steps that begins in [w]. *)
Definition world_after (w : world E) (steps : list (bool * world E * list event))
  : world E :=
  foldl (fun _ r => step_world r) w steps.

(** The first part of [dl_sync_dir], on the directory itself: whether
    it succeeds, and the files it leaves when it does. *)
Definition dir_step_ok (fs : FS) (file : GFile) : bool :=
  match fs !! file with
  | None => bool_decide (make_directory_error E fs file = None)
  | Some t => bool_decide (t = G_FILE_TYPE_DIRECTORY)
  end.

Definition after_dir_step (fs : FS) (file : GFile) : FS :=
  match fs !! file with
  | None => <[file := G_FILE_TYPE_DIRECTORY]> fs
  | Some _ => fs
  end.

(** What the tree walk relies on from [mega_session_get]: it touches no
    local path but its target, and leaves a regular file there when it
    succeeds. *)
Definition get_frame : Prop :=
  ∀ ss fs local_path remote_path p, p ≠ local_path →
    x_fs (mega_session_get E ss fs local_path remote_path) !! p = fs !! p.

Definition get_creates : Prop :=
  ∀ ss fs local_path remote_path,
    x_err (mega_session_get E ss fs local_path remote_path) = None →
    x_fs (mega_session_get E ss fs local_path remote_path) !! local_path
    = Some G_FILE_TYPE_REGULAR.

(** The invariant of the walk: local files are only added, no fetch
    goes to a path that was there before, and every fetch that
    succeeded has its file in place at the end. *)
Definition walk_inv (w w' : world E) (out : list event) : Prop :=
  fs E w ⊆ fs E w'
  ∧ (∀ p r err, SessionGet p r err ∈ out → fs E w !! p = None)
  ∧ (get_creates →
     ∀ p r, SessionGet p r None ∈ out →
       fs E w' !! p = Some G_FILE_TYPE_REGULAR).
End Observations.

(** *** Vocabulary of the statements about the watcher and the schedules *)

(** The bytes the program itself writes with [fwrite]. *)
Definition written (e : event) : option string :=
  match e with Fwrite buf => Some buf | _ => None end.

Definition data_buf (d : mega_status_data) : option string :=
  match d with MEGA_STATUS_DATA buf => Some buf | _ => None end.

Definition is_show_progress (e : event) : bool :=
  match e with ShowProgress _ _ => true | _ => false end.

Definition attempt_of (o : obs) : option (option GError) :=
  match o with Attempt err => Some err | _ => None end.

Definition wait_of (o : obs) : option Z :=
  match o with Wait us => Some us | _ => None end.

(** The waits between the five attempts, in microseconds. *)
Definition backoff : list Z := [2000000; 4000000; 8000000; 16000000].

(** The waits of [m] iterations from the state of a retry loop in which
    [a] attempts have failed and the back-off is [sl]. *)
Fixpoint waits_from (a sl : Z) (m : nat) : list Z :=
  match m with
  | O => []
  | S m' => (if 0 <? a then [sl] else []) ++ waits_from (a + 1) (next_sleep a sl) m'
  end.

(** The line that announces a wait of [us] microseconds after [n]
    failed attempts. *)
Definition retry_line (n us : Z) : event :=
  Print ("Attempt #" +:+ pretty n +:+ " failed, trying again in "
         +:+ pretty (Z.quot us 1000000) +:+ " seconds..." +:+ nl).

(** The number of attempts an output shows. *)
Definition attempts_in (out : list event) : Z :=
  Z.of_nat (length (omap attempt_of (schedule out))).

(** Every wait of [out] comes right after the line that announces it,
    with the number of attempts made until then, [a] of them before
    [out] began. *)
Definition waits_announced (a : Z) (out : list event) : Prop :=
  ∀ pre us post, out = pre ++ Usleep us :: post →
    ∃ pre', pre = pre' ++ [retry_line (a + attempts_in pre') us].

(** *** Vocabulary of the statements about trees *)

(** The local files mirror the tree below a directory node: a directory
    at [file], a regular file for every child that is a file, and the
    same again below every other child. *)
Fixpoint mirrored (fs : FS) (file : GFile) (node : mega_node) : bool :=
  bool_decide (fs !! file = Some G_FILE_TYPE_DIRECTORY)
  && forallb
       (fun child =>
          let child_file := g_file_get_child file (node_name child) in
          if node_type child =? 0
          then bool_decide (fs !! child_file = Some G_FILE_TYPE_REGULAR)
          else mirrored fs child_file child)
       (node_children node).

(** The local paths of the files of the tree below a directory node, in
    the order of the walk. *)
Fixpoint files_of (file : GFile) (node : mega_node) : list GFile :=
  flat_map
    (fun child =>
       let child_file := g_file_get_child file (node_name child) in
       if node_type child =? 0 then [child_file] else files_of child_file child)
    (node_children node).

(** The error of a file step whose target is there already. *)
Definition already_exists (local_path : string) : event :=
  PrintErr ("ERROR: File already exists at " +:+ local_path +:+ nl).

(** The path reached from [base] through the names [names]. *)
Definition under (base : string) (names : list string) : string :=
  foldl (fun path name => path +:+ "/" +:+ name) base names.

(** [descends node names n]: the names lead from [node] down to [n]. *)
Inductive descends : mega_node → list string → mega_node → Prop :=
| descends_here node : descends node [] node
| descends_child node child names n :
    child ∈ node_children node → descends child names n →
    descends node (node_name child :: names) n.

(** The local paths of the nodes of the tree below and including
    [node], when [file] is the path of [node]. *)
Definition tree_path (node : mega_node) (file : GFile) (p : string) : Prop :=
  ∃ names n, descends node names n ∧ p = under file names.

(** What a walk from [node], with [file] and [remote_path] for it, may
    show: fetches of files of the tree, each from the remote path to the
    local path that the same names lead to, creations of directories at
    the paths of nodes of the tree, and what is written, displayed or
    waited for. *)
Definition tree_event (node : mega_node) (file : GFile) (remote_path : string)
    (e : event) : Prop :=
  match e with
  | SessionGet local_path remote _ =>
      ∃ names leaf,
        descends node names leaf ∧ node_type leaf = 0 ∧ names ≠ []
        ∧ local_path = under file names ∧ remote = under remote_path names
  | MakeDirectory local_path _ =>
      ∃ names dir, descends node names dir ∧ local_path = under file names
  | Print _ | PrintErr _ | Fwrite _ | ShowProgress _ _ | Usleep _ => True
  | _ => False
  end.

(** What [g_print] writes to standard output. *)
Definition printed (e : event) : option string :=
  match e with Print text => Some text | _ => None end.

(** The line that --print-names writes for a fetch that succeeded. *)
Definition fetched_line (e : event) : option string :=
  match e with
  | SessionGet local_path _ None => Some (local_path +:+ nl)
  | _ => None
  end.

Definition is_usleep (e : event) : bool :=
  match e with Usleep _ => true | _ => false end.

(** *** Vocabulary of the statements about whole runs *)

(** The lines of standard error that report an error. *)
Definition is_error_report (e : event) : bool :=
  match e with PrintErr text => String.prefix "ERROR:" text | _ => false end.

(** An error has been reported on standard error. *)
Definition reported (out : list event) : Prop :=
  Exists (fun e => is_error_report e = true) out.

(** The lines [main] writes for the arguments it skips. *)
Definition skip_warning (link : string) : event :=
  PrintErr ("WARNING: Skipping invalid Mega download link: " +:+ link +:+ nl).

Definition is_skip_warning (e : event) : bool :=
  match e with PrintErr text => String.prefix "WARNING:" text | _ => false end.

Definition is_fini (e : event) : bool :=
  match e with Fini _ => true | _ => false end.

Definition is_start (e : event) : bool :=
  match e with StartSession _ => true | _ => false end.

(** The options are the same in two states of the globals. *)
Definition same_options (g0 g1 : globals) : Prop :=
  opt_path g1 = opt_path g0 ∧ opt_stream g1 = opt_stream g0
  ∧ opt_noprogress g1 = opt_noprogress g0
  ∧ opt_print_names g1 = opt_print_names g0.

Section MoreObservations.
Context (E : env).

(** The shape of every schedule of a retry loop, whatever the errors:
    between one and five attempts, separated by the first waits of
    [backoff]; every attempt but the last failed with a transient error,
    and the loop succeeds when the last attempt does. *)
Definition retry_shape (tr : list obs) (ok : bool) : Prop :=
  let attempts := omap attempt_of tr in
  let n := length attempts in
  (1 ≤ n ≤ 5)%nat
  ∧ omap wait_of tr = take (n - 1) backoff
  ∧ foldr Z.add 0 (omap wait_of tr) ≤ 30000000
  ∧ (ok = true ↔ last attempts = Some None)
  ∧ (∀ i o, (S i < n)%nat → attempts !! i = Some o → transient_failure E o).

(** The arguments that are links, as [main] sees them. *)
Definition is_link (av_i : string) : bool :=
  match classify (tool_convert_filename E av_i false) with
  | Invalid => false
  | _ => true
  end.

(** The destination [main] hands to [mega_session_dl]. *)
Definition dl_path (g0 : globals) : option string :=
  if opt_stream g0 then None else Some (opt_path g0).

(** What the loop of [main] over the arguments [links] may show:
    downloads and folder openings with the handle and the key of one of
    the arguments, downloads to the destination of the options, and
    whatever a walk shows; it neither starts nor ends a session. *)
Definition run_event (links : list string) (g0 : globals) (e : event) : Prop :=
  match e with
  | SessionDl handle key path _ =>
      path = dl_path g0
      ∧ ∃ av_i, av_i ∈ links
          ∧ classify (tool_convert_filename E av_i false) = FileRef handle key
  | OpenExpFolder handle key _ =>
      ∃ av_i, av_i ∈ links
        ∧ classify (tool_convert_filename E av_i false) = FolderRef handle key
  | StartSession _ | Fini _ => False
  | _ => True
  end.


End MoreObservations.

(** Whether the options ask for the data on standard output. *)
Definition streaming (c : cmdline) : bool :=
  String.eqb (default "."%string (arg_path c)) "-".

(** The globals once [main] has looked at the path. *)
Definition startup (c : cmdline) : globals :=
  {| opt_path := default "."%string (arg_path c);
     opt_stream := streaming c;
     opt_noprogress := arg_no_progress c || streaming c;
     opt_print_names := arg_print_names c;
     cur_file := None |}.

(** The command lines [main] turns down before it starts a session. *)
Definition usage_error (c : cmdline) : bool :=
  bool_decide (arg_links c = [])
  || (streaming c && negb (bool_decide (length (arg_links c) = 1%nat))).

(** *** A session that follows a script

    An instance of [env] for running the program on examples: the
    session answers its transfer calls from a list of prepared replies,
    one per call; a successful transfer leaves a regular file at its
    target. *)

Module Scripted.

Record reply := Reply {
  r_events : list mega_status_data;
  r_err : option GError
}.

Record session := ScriptedSession {
  script : list reply;
  folder_err : option GError;
  roots : list mega_node
}.

Definition other (msg : string) : GError :=
  {| domain := 1; code := 0; message := msg |}.
Definition http (msg : string) : GError :=
  {| domain := 1; code := 7; message := msg |}.

Definition answer (ss : session) (fs : FS) (target : option string)
  : xfer session :=
  match script ss with
  | [] => Xfer ss fs [] (Some (other "no reply"))
  | r :: rest =>
      let ss' := ScriptedSession rest (folder_err ss) (roots ss) in
      match r_err r, target with
      | None, Some p => Xfer ss' (<[p := G_FILE_TYPE_REGULAR]> fs) (r_events r) None
      | e, _ => Xfer ss' fs (r_events r) e
      end
  end.

Fixpoint last_name (evs : list mega_status_data) (d : string) : string :=
  match evs with
  | [] => d
  | MEGA_STATUS_FILEINFO n :: evs' => last_name evs' n
  | _ :: evs' => last_name evs' d
  end.

Definition dl_target (ss : session) (path : option string) : option string :=
  match path, script ss with
  | Some p, r :: _ => Some (g_file_get_child p (last_name (r_events r) "file"))
  | _, _ => None
  end.

Definition scripted (ss0 : session) : env :=
  {| Session := session;
     MEGA_ERROR := 1;
     MEGA_ERROR_OTHER := 0;
     ESC_CLREOL := String (ascii_of_N 27) "[0K";
     tool_convert_filename := fun name _ => name;
     tool_start_session := fun _ => ss0;
     mega_session_dl := fun ss fs _ _ path => answer ss fs (dl_target ss path);
     mega_session_get := fun ss fs local_path _ => answer ss fs (Some local_path);
     mega_session_open_exp_folder := fun ss _ _ => (ss, folder_err ss);
     mega_session_ls := fun ss _ _ => roots ss;
     mega_node_get_path_dup := fun n => "/" +:+ node_name n;
     make_directory_error := fun _ _ => None |}.

End Scripted.

End Dl.

(** ** Inputs of the examples *)

Module Examples.
Import Chars Links Dl Dl.Scripted.

Definition key43 : string := "abcdefghijklmnopqrstuvwxyzabcdefghijklmnopq".
Definition key22 : string := "ABCDEFGHIJKLMNOPQRSTUV".



(** A file link followed by a line feed. *)
Definition newline_key : string := key43 +:+ nl.
Definition newline_link : string := "https://mega.nz/#!abcdefgh!" +:+ newline_key.

Definition file_link_1 : string := "https://mega.nz/#!AAAAAAAA!" +:+ key43.
Definition file_link_2 : string := "https://mega.co.nz/#!BBBBBBBB!" +:+ key43.
Definition folder_link : string := "https://mega.nz/#F!CCCCCCCC!" +:+ key22.

Definition cwd : FS := {[ "."%string := G_FILE_TYPE_DIRECTORY ]}.

Definition quiet : globals :=
  {| opt_path := "."; opt_stream := false; opt_noprogress := true;
     opt_print_names := false; cur_file := None |}.

Definition verbose : globals :=
  {| opt_path := "."; opt_stream := false; opt_noprogress := false;
     opt_print_names := true; cur_file := None |}.

(** Two links to standard output. *)
Definition stream_two : cmdline :=
  {| arg_path := Some "-"%string; arg_no_progress := false;
     arg_print_names := false; arg_links := [file_link_1; file_link_2] |}.

(** Two links into the current directory, without progress display. *)
Definition batch_two : cmdline :=
  {| arg_path := None; arg_no_progress := true;
     arg_print_names := false; arg_links := [file_link_1; file_link_2] |}.

Definition one_folder : cmdline :=
  {| arg_path := None; arg_no_progress := true;
     arg_print_names := false; arg_links := [folder_link] |}.

Definition file_a : mega_node := MegaNode "a" 0 [].

(** First a download that fails for good, then one that succeeds. *)
Definition fail_then_succeed : session :=
  ScriptedSession
    [ Reply [] (Some (other "not found"));
      Reply [MEGA_STATUS_FILEINFO "b.bin"] None ]
    None [].

(** Nothing but transport errors. *)
Definition always_http : session :=
  ScriptedSession (replicate 6 (Reply [] (Some (http "timeout")))) None [].


(** A shared folder with three files, one of them in a subdirectory; the
    first fetch fails for good, the other two succeed. *)
Definition tree : mega_node :=
  MegaNode "root" 1
    [ MegaNode "a" 0 [];
      MegaNode "d" 1 [MegaNode "b" 0 []];
      MegaNode "c" 0 [] ].

Definition tree_session : session :=
  ScriptedSession
    [ Reply [] (Some (other "not found")); Reply [] None; Reply [] None ]
    None [tree].

Definition world_of (ss : session) (g0 : globals) (fs0 : FS)
  : world (scripted ss) :=
  World (scripted ss) g0 fs0 ss.

(** A local directory in which [./a] is already there. *)
Definition taken : FS := <["./a"%string := G_FILE_TYPE_REGULAR]> cwd.

(** The shared folder of [tree] with every fetch succeeding. *)
Definition tree_ok_session : session :=
  ScriptedSession [Reply [] None; Reply [] None; Reply [] None] None [tree].

(** The local directory once [tree] has been saved into it. *)
Definition saved : FS :=
  list_to_map
    [ ("."%string, G_FILE_TYPE_DIRECTORY);
      ("./a"%string, G_FILE_TYPE_REGULAR);
      ("./d"%string, G_FILE_TYPE_DIRECTORY);
      ("./d/b"%string, G_FILE_TYPE_REGULAR);
      ("./c"%string, G_FILE_TYPE_REGULAR) ].

(** A download that hands over its data in two buffers. *)
Definition two_buffers : session :=
  ScriptedSession
    [ Reply [ MEGA_STATUS_FILEINFO "a.bin"; MEGA_STATUS_DATA "abc";
              MEGA_STATUS_PROGRESS 6 3; MEGA_STATUS_DATA "def" ]
            None ]
    None [].

(** One link to standard output, with the name of the file asked for. *)
Definition stream_one : cmdline :=
  {| arg_path := Some "-"%string; arg_no_progress := false;
     arg_print_names := true; arg_links := [file_link_1] |}.

(** Two arguments that are no links. *)
Definition no_links : cmdline :=
  {| arg_path := None; arg_no_progress := false;
     arg_print_names := false;
     arg_links := ["hello"; "https://mega.nz/#!short!key"]%string |}.

(** A file link, something else and a folder link. *)
Definition mixed : list string := [file_link_1; "hello"%string; folder_link].

(** No progress display, names printed. *)
Definition listing : globals :=
  {| opt_path := "."; opt_stream := false; opt_noprogress := true;
     opt_print_names := true; cur_file := None |}.

Definition streaming_globals : globals :=
  {| opt_path := "-"; opt_stream := true; opt_noprogress := true;
     opt_print_names := false; cur_file := None |}.

End Examples.

(** * Properties *)

(** ** Characters *)

Module CharFacts.
Import Chars.

Lemma all_ascii_complete (c : ascii) : c ∈ all_ascii.
Proof.
  rewrite <- (ascii_nat_embedding c).
  apply list_elem_of_fmap_2, elem_of_seq.
  pose proof (nat_ascii_bounded c). lia.
Qed.

Lemma forall_ascii (P : ascii → bool) :
  forallb P all_ascii = true → ∀ c, P c = true.
Proof.
  intros H c. rewrite forallb_forall in H. apply H.
  apply list_elem_of_In, all_ascii_complete.
Qed.

Lemma forall_ascii2 (P : ascii → ascii → bool) :
  forallb (fun x => forallb (P x) all_ascii) all_ascii = true →
  ∀ x y, P x y = true.
Proof.
  intros H x y. apply (forall_ascii (P x)).
  apply (forall_ascii (fun x => forallb (P x) all_ascii) H).
Qed.

(** Decidable facts about one or two characters, settled by running
    through the 256 of them. *)
Ltac by_cases_on_ascii :=
  lazymatch goal with
  | |- ∀ x y : ascii, _ =>
      let x := fresh "x" in
      let y := fresh "y" in
      intros x y;
      lazymatch goal with |- ?G => apply (bool_decide_eq_true_1 G) end;
      lazymatch goal with
      | |- ?b = true =>
          let f := eval pattern x, y in b in
          lazymatch f with
          | ?F x y => apply (forall_ascii2 F); vm_compute; reflexivity
          end
      end
  | |- ∀ x : ascii, _ =>
      let x := fresh "x" in
      intros x;
      lazymatch goal with |- ?G => apply (bool_decide_eq_true_1 G) end;
      lazymatch goal with
      | |- ?b = true =>
          let f := eval pattern x in b in
          lazymatch f with
          | ?F x => apply (forall_ascii F); vm_compute; reflexivity
          end
      end
  end.









End CharFacts.

(** ** The matcher *)

Module RegexFacts.
Import Chars Regex CharFacts.

Lemma rx_match_seq f r1 r2 p s cs k :
  rx_match f (RSeq r1 r2) p s cs k
  = rx_match f r1 p s cs (fun p' s' cs' => rx_match f r2 p' s' cs' k).
Proof. done. Qed.

Lemma rx_match_cap f i r p s cs k :
  rx_match f (RCap i r) p s cs k
  = rx_match f r p s cs (fun p' s' cs' => k p' s' ((i, (p, p')) :: cs')).
Proof. done. Qed.

Lemma rx_match_chr f c x p s cs k :
  chr_eq f c x = true → rx_match f (RChr c) p (x :: s) cs k = k (S p) s cs.
Proof. simpl. by intros ->. Qed.

(** A pattern that begins with [^] matches at offset 0 or nowhere. *)
Lemma rx_search_bol f r s : ∀ p, p ≠ 0%nat → rx_search f (RSeq RBol r) p s = None.
Proof.
  induction s as [|x s IH]; intros p Hp; simpl;
    rewrite bool_decide_eq_false_2 by done; [done|].
  apply IH. lia.
Qed.

Lemma rx_search_anchored f r s :
  rx_search f (RSeq RBol r) 0 s
  = rx_match f (RSeq RBol r) 0 s [] (fun p' _ cs => Some ((0, (0, p')) :: cs)%nat).
Proof.
  destruct s as [|x s]; cbn [rx_search];
    destruct (rx_match _ _ _ _ _ _); try done.
  by apply rx_search_bol.
Qed.

(** *** Caseless matching does not see the case of the subject *)










Lemma fetch_group subject a b i cs :
  assoc i cs = Some (a, b) →
  g_match_info_fetch {| mi_subject := subject; mi_groups := cs |} i
  = string_of_list_ascii (take (b - a) (drop a subject)).
Proof. unfold g_match_info_fetch. simpl. by intros ->. Qed.

End RegexFacts.

(** ** Links *)

Module LinkFacts.
Import Chars Regex Links CharFacts RegexFacts Examples.

Abbreviation F := G_REGEX_CASELESS.

Lemma token_mem :
  ∀ c, set_mem F [("a", "z"); ("0", "9"); ("_", "_"); ("-", "-")]%char c
       = alphabet c.
Proof. by_cases_on_ascii. Qed.

Lemma list_ascii_of_string_app a b :
  chars (a +:+ b) = chars a ++ chars b.
Proof. induction a as [|c a IH]; simpl; [done|by rewrite IH]. Qed.

Lemma length_list_ascii s : length (chars s) = String.length s.
Proof. induction s; simpl; congruence. Qed.

Lemma rep_token n : ∀ h rest p cs k,
  length h = n → forallb alphabet h = true →
  rx_match F (RRep n token) p (h ++ rest) cs k = k (p + n)%nat rest cs.
Proof.
  induction n as [|n IH]; intros h rest p cs k Hlen Hall.
  - destruct h; [|done]. simpl. by rewrite Nat.add_0_r.
  - destruct h as [|c h]; [done|]. simpl in *.
    apply andb_prop in Hall as [Hc Hall].
    rewrite token_mem, Hc.
    specialize (IH h rest (S p) cs k). simpl in IH.
    rewrite IH; [|lia|done]. f_equal. lia.
Qed.

Lemma tail_match n h key p cs (k : cont) :
  length h = 8%nat → length key = n →
  forallb alphabet h = true → forallb alphabet key = true →
  rx_match F (tail_pattern n) p (h ++ "!"%char :: key) cs k
  = k (p + 9 + n)%nat [] ((2, (p + 9, p + 9 + n)) :: (1, (p, p + 8)) :: cs)%nat.
Proof.
  intros Hh Hk Ah Ak. unfold tail_pattern, rseq. cbn [foldr].
  rewrite rx_match_seq, rx_match_cap, (rep_token 8 h) by done.
  rewrite rx_match_seq, rx_match_chr by done.
  rewrite rx_match_seq, rx_match_cap.
  rewrite <- (app_nil_r key), (rep_token n key) by done.
  rewrite rx_match_seq. cbn [rx_match at_dollar].
  replace (S (p + 8)) with (p + 9)%nat by lia. done.
Qed.

Lemma file_regex_shape :
  rx_pattern file_regex = head_pattern "!" (tail_pattern 43).
Proof. done. Qed.

Lemma folder_regex_shape :
  rx_pattern folder_regex = head_pattern "F!" (tail_pattern 22).
Proof. done. Qed.

Ltac split_spellings Hs Hh :=
  repeat (apply elem_of_cons in Hs as [->|Hs]); [..|by apply elem_of_nil in Hs];
  (repeat (apply elem_of_cons in Hh as [->|Hh]); [..|by apply elem_of_nil in Hh]).

(** Runs the matcher over the concrete characters of the goal; what it
    does on the rest of the pattern [tl] stays as it is. *)
Ltac run_head tl :=
  repeat match goal with
    | |- context [list_ascii_of_string ?s ++ _] =>
        let v := eval vm_compute in (list_ascii_of_string s) in
        change (list_ascii_of_string s) with v
    | |- context [String.length ?s] =>
        let v := eval vm_compute in (String.length s) in
        change (String.length s) with v
    end;
  cbn [app]; unfold head_pattern;
  repeat rewrite rx_match_seq; cbn [rx_match];
  generalize (rx_match F tl); intros ?g; vm_compute.

Lemma head_match_file scheme host tl rest k :
  spelling scheme host →
  rx_match F (head_pattern "!" tl) 0
    (chars (scheme +:+ "://" +:+ host +:+ "/#!") ++ rest) [] k
  = rx_match F tl (String.length (scheme +:+ "://" +:+ host +:+ "/#!")) rest [] k.
Proof.
  intros [Hs Hh]. split_spellings Hs Hh; run_head tl;
    by destruct (g _ rest [] k).
Qed.

Lemma head_match_folder scheme host tl rest k :
  spelling scheme host →
  rx_match F (head_pattern "F!" tl) 0
    (chars (scheme +:+ "://" +:+ host +:+ "/#F!") ++ rest) [] k
  = rx_match F tl (String.length (scheme +:+ "://" +:+ host +:+ "/#F!")) rest [] k.
Proof.
  intros [Hs Hh]. split_spellings Hs Hh; run_head tl;
    by destruct (g _ rest [] k).
Qed.

(** The file pattern stops at the marker of a folder link. *)
Lemma head_mismatch scheme host tl rest k :
  spelling scheme host →
  rx_match F (head_pattern "!" tl) 0
    (chars (scheme +:+ "://" +:+ host +:+ "/#F!") ++ rest) [] k = None.
Proof.
  intros [Hs Hh]. split_spellings Hs Hh; run_head tl; done.
Qed.

Lemma take_drop_middle {A} (pre mid post : list A) a b :
  a = length pre → (b - a)%nat = length mid →
  take (b - a) (drop a (pre ++ mid ++ post)) = mid.
Proof.
  intros -> ->. rewrite drop_app_length. by rewrite take_app_length.
Qed.

(** What a successful match of either pattern leaves in the match info. *)
Lemma link_match re marker n scheme host h key :
  rx_flags re = F → rx_pattern re = head_pattern marker (tail_pattern n) →
  (∀ rest k,
     rx_match F (head_pattern marker (tail_pattern n)) 0
       (chars (scheme +:+ "://" +:+ host +:+ "/#" +:+ marker) ++ rest) [] k
     = rx_match F (tail_pattern n)
         (String.length (scheme +:+ "://" +:+ host +:+ "/#" +:+ marker)) rest [] k) →
  token_string 8 h → token_string n key →
  ∃ m, g_regex_match re
         (scheme +:+ "://" +:+ host +:+ "/#" +:+ marker +:+ h +:+ "!" +:+ key)
       = Some m
       ∧ g_match_info_fetch m 1 = h ∧ g_match_info_fetch m 2 = key.
Proof.
  intros Hf Hp Hhead [Hh Ah] [Hk Ak].
  unfold g_regex_match. rewrite Hf, Hp.
  unfold head_pattern at 1. rewrite rx_search_anchored.
  fold (head_pattern marker (tail_pattern n)).
  set (pre := (scheme +:+ "://" +:+ host +:+ "/#" +:+ marker)%string).
  assert (Hsub : chars
            (scheme +:+ "://" +:+ host +:+ "/#" +:+ marker +:+ h +:+ "!" +:+ key)
          = chars pre ++ chars h ++ "!"%char :: chars key).
  { unfold pre. rewrite !list_ascii_of_string_app, <- !app_assoc.
    reflexivity. }
  rewrite Hsub, Hhead. fold pre.
  rewrite tail_match; [|by rewrite length_list_ascii..|done|done].
  eexists. split; [done|].
  assert (Hpre : String.length pre = length (chars pre))
    by (by rewrite length_list_ascii).
  assert (Hh' : length (chars h) = 8%nat)
    by (by rewrite length_list_ascii).
  assert (Hk' : length (chars key) = n)
    by (by rewrite length_list_ascii).
  split.
  - erewrite fetch_group; [|by simpl].
    rewrite (take_drop_middle (chars pre) (chars h)); [|done|lia].
    apply string_of_list_ascii_of_string.
  - erewrite fetch_group; [|by simpl].
    replace (chars pre ++ chars h ++ "!"%char :: chars key)
      with ((chars pre ++ chars h ++ ["!"%char]) ++ chars key ++ [])
      by (rewrite app_nil_r, <- !app_assoc; done).
    rewrite (take_drop_middle _ (chars key)).
    + apply string_of_list_ascii_of_string.
    + rewrite !length_app. cbn [length]. lia.
    + lia.
Qed.

(** A well-formed file link is a [FileRef] with the handle and the key it
    embeds. *)
Lemma classify_file_roundtrip scheme host h key :
  spelling scheme host → token_string 8 h → token_string 43 key →
  classify (scheme +:+ "://" +:+ host +:+ "/#!" +:+ h +:+ "!" +:+ key)
  = FileRef h key.
Proof.
  intros Hsp Hh Hk.
  destruct (link_match file_regex "!" 43 scheme host h key eq_refl
              file_regex_shape) as (m & Hm & H1 & H2); [|done|done|].
  { intros rest k. by apply head_match_file. }
  unfold classify.
  change (scheme +:+ "://" +:+ host +:+ "/#" +:+ "!" +:+ h +:+ "!" +:+ key)%string
    with (scheme +:+ "://" +:+ host +:+ "/#!" +:+ h +:+ "!" +:+ key)%string in Hm.
  by rewrite Hm, H1, H2.
Qed.

Lemma file_regex_rejects_folder scheme host rest :
  spelling scheme host →
  g_regex_match file_regex (scheme +:+ "://" +:+ host +:+ "/#F!" +:+ rest) = None.
Proof.
  intros Hsp. unfold g_regex_match.
  change (rx_flags file_regex) with F. rewrite file_regex_shape.
  unfold head_pattern at 1. rewrite rx_search_anchored.
  fold (head_pattern "!" (tail_pattern 43)).
  replace (chars (scheme +:+ "://" +:+ host +:+ "/#F!" +:+ rest))
    with (chars (scheme +:+ "://" +:+ host +:+ "/#F!") ++ chars rest).
  - by rewrite head_mismatch.
  - rewrite !list_ascii_of_string_app, <- !app_assoc. reflexivity.
Qed.

(** A well-formed folder link is a [FolderRef] with the handle and the
    key it embeds. *)
Lemma classify_folder_roundtrip scheme host h key :
  spelling scheme host → token_string 8 h → token_string 22 key →
  classify (scheme +:+ "://" +:+ host +:+ "/#F!" +:+ h +:+ "!" +:+ key)
  = FolderRef h key.
Proof.
  intros Hsp Hh Hk.
  destruct (link_match folder_regex "F!" 22 scheme host h key eq_refl
              folder_regex_shape) as (m & Hm & H1 & H2); [|done|done|].
  { intros rest k. by apply head_match_folder. }
  unfold classify. rewrite file_regex_rejects_folder by done.
  change (scheme +:+ "://" +:+ host +:+ "/#" +:+ "F!" +:+ h +:+ "!" +:+ key)%string
    with (scheme +:+ "://" +:+ host +:+ "/#F!" +:+ h +:+ "!" +:+ key)%string in Hm.
  by rewrite Hm, H1, H2.
Qed.

(** C3, at the input where the code leaves it: a file link followed by a
    line feed is classified as a [FileRef], with the 43 characters before
    the line feed as its key, although what follows the second [!] has 44
    characters and is no key: the [$] of the pattern, compiled without
    G_REGEX_DOLLAR_ENDONLY, also matches before a newline that ends the
    subject. *)
Theorem classify_trailing_newline :
  newline_link = ("https://mega.nz/#!abcdefgh!" +:+ newline_key)%string
  ∧ String.length newline_key = 44%nat
  ∧ ¬ token_string 43 newline_key
  ∧ classify newline_link = FileRef "abcdefgh" key43.
Proof.
  split; [done|]. split; [done|]. split.
  - intros [Hlen _]. vm_compute in Hlen. discriminate.
  - vm_compute. reflexivity.
Qed.

(** *** Letter case *)




(** *** What the patterns accept *)















(** *** The exact set of links *)













End LinkFacts.

(** ** The program *)

Module DlFacts.
Import Chars Links Dl.

Create Rewrite HintDb schedule.

(** Takes apart a hypothesis that an event is in an output that is
    written out in the goal; [F] names what is known of the parts that
    are not. *)
Ltac find_event :=
  repeat match goal with
    | H : _ ∈ _ ++ _ |- _ => apply elem_of_app in H as [H|H]
    | H : _ ∈ _ :: _ |- _ => apply elem_of_cons in H as [H|H]
    | H : _ ∈ [] |- _ => by apply elem_of_nil in H
    | H : _ ∈ when ?b _ |- _ => destruct b; cbn [when] in H
    | H : ?e ∈ ?out, F : Forall (fun e => is_creation e = false) ?out |- _ =>
        by (rewrite Forall_forall in F; specialize (F _ H))
    | H : @eq event _ _ |- _ => simplify_eq
    end.

Lemma mega_node_nested_ind (P : mega_node → Prop) :
  (∀ name type children, Forall P children → P (MegaNode name type children)) →
  ∀ node, P node.
Proof.
  intros H. fix IH 1. intros [name type children]. apply H.
  induction children as [|c cs IHcs]; constructor; [apply IH|exact IHcs].
Qed.

Section Facts.
Context (E : env).

(** *** The watcher *)

Lemma latest_name_last evs : latest_name evs = last (omap fileinfo_name evs).
Proof.
  induction evs as [|d evs IH]; [done|]. cbn. rewrite IH.
  destruct d; cbn; try by destruct (last _).
  rewrite last_cons. by destruct (last _).
Qed.

Lemma status_callback_opts d g0 :
  let g1 := (status_callback d g0).1.2 in
  opt_path g1 = opt_path g0 ∧ opt_stream g1 = opt_stream g0
  ∧ opt_noprogress g1 = opt_noprogress g0
  ∧ opt_print_names g1 = opt_print_names g0.
Proof. by destruct d. Qed.

Lemma deliver_opts evs : ∀ g0,
  let g1 := (deliver evs g0).1 in
  opt_path g1 = opt_path g0 ∧ opt_stream g1 = opt_stream g0
  ∧ opt_noprogress g1 = opt_noprogress g0
  ∧ opt_print_names g1 = opt_print_names g0.
Proof.
  induction evs as [|d evs IH]; intros g0; [done|]. cbn [deliver].
  pose proof (status_callback_opts d g0) as Hd.
  destruct (status_callback d g0) as [[b g1] out1]. cbn [fst snd] in Hd.
  specialize (IH g1). destruct (deliver evs g1) as [g2 out2]. cbn [fst snd] in *.
  destruct Hd as (<- & <- & <- & <-). exact IH.
Qed.

Lemma deliver_cur_file evs : ∀ g0,
  cur_file (deliver evs g0).1
  = match latest_name evs with Some name => Some name | None => cur_file g0 end.
Proof.
  induction evs as [|d evs IH]; intros g0; [done|]. cbn [deliver latest_name].
  destruct (status_callback d g0) as [[b g1] out1] eqn:Hd.
  specialize (IH g1). destruct (deliver evs g1) as [g2 out2]. cbn [fst snd] in *.
  rewrite IH. destruct (latest_name evs); [done|].
  destruct d; simpl in Hd; by inversion Hd.
Qed.

Lemma status_callback_quiet d g0 :
  Forall (fun e => is_creation e = false) (status_callback d g0).2
  ∧ schedule (status_callback d g0).2 = [].
Proof.
  destruct d; simpl; destruct (opt_noprogress g0), (opt_stream g0);
    split; by repeat constructor.
Qed.

Lemma deliver_quiet evs : ∀ g0,
  Forall (fun e => is_creation e = false) (deliver evs g0).2
  ∧ schedule (deliver evs g0).2 = [].
Proof.
  induction evs as [|d evs IH]; intros g0; [by split; [constructor|]|].
  cbn [deliver].
  pose proof (status_callback_quiet d g0) as [Hd1 Hd2].
  destruct (status_callback d g0) as [[b g1] out1].
  specialize (IH g1). destruct (deliver evs g1) as [g2 out2].
  cbn [snd] in *. destruct IH as [IH1 IH2]. split.
  - by apply Forall_app.
  - unfold schedule in *. by rewrite omap_app, Hd2, IH2.
Qed.

Lemma after_xfer_spec x (w : world E) :
  fs E (after_xfer E x w).1 = x_fs x
  ∧ Forall (fun e => is_creation e = false) (after_xfer E x w).2
  ∧ schedule (after_xfer E x w).2 = [].
Proof.
  unfold after_xfer. pose proof (deliver_quiet (x_events x) (g E w)) as [H1 H2].
  by destruct (deliver (x_events x) (g E w)).
Qed.

(** *** The retry loops *)

Lemma schedule_app out1 out2 :
  schedule (out1 ++ out2) = schedule out1 ++ schedule out2.
Proof. apply omap_app. Qed.

Lemma schedule_when_print b text : schedule (when b [Print text]) = [].
Proof. by destruct b. Qed.

Lemma schedule_retry_notice a sl : schedule (retry_notice a sl) = wait_before a sl.
Proof. unfold retry_notice, wait_before. by destruct (0 <? a). Qed.

Lemma schedule_get l r err out :
  schedule (SessionGet l r err :: out) = Attempt err :: schedule out.
Proof. done. Qed.

Lemma schedule_dl h k p err out :
  schedule (SessionDl h k p err :: out) = Attempt err :: schedule out.
Proof. done. Qed.

Lemma schedule_printerr text : schedule [PrintErr text] = [].
Proof. done. Qed.

Lemma gint_succ a : 0 ≤ a < 5 → gint (a + 1) = a + 1.
Proof. intros Ha. unfold gint, wrap. rewrite Z.mod_small; lia. Qed.

Hint Rewrite schedule_app schedule_retry_notice schedule_get schedule_dl
  schedule_when_print schedule_printerr (@app_nil_r obs) : schedule.

Lemma get_loop_policy local_path remote_path fuel :
  ∀ a sl st (w : world E) ok w' out,
    0 ≤ a < 5 → (Z.to_nat (5 - a) ≤ fuel)%nat →
    get_loop E fuel local_path remote_path a sl st w = (ok, w', out) →
    policy E a sl (schedule out) ok.
Proof.
  induction fuel as [|fuel IH]; intros a sl st w ok w' out Ha Hfuel; [lia|].
  cbn [get_loop]. rewrite (proj2 (Z.ltb_lt a 5)) by lia. cbn [negb].
  pose proof (after_xfer_spec
    (mega_session_get E (s E w) (fs E w) local_path remote_path) w)
    as (_ & _ & Hcb).
  destruct (after_xfer E _ w) as [w1 out_cb]. cbn [snd] in Hcb.
  destruct (x_err _) as [e|] eqn:Herr.
  - destruct (g_error_matches e _ _) eqn:Hm.
    + intros [= <- <- <-]. autorewrite with schedule.
      rewrite Hcb; cbn [app]. apply policy_give_up. left.
      unfold transient. by rewrite Hm.
    + rewrite gint_succ by done.
      destruct (get_loop E fuel _ _ _ _ _ _) as [[ok2 w2] out2] eqn:Hrec.
      intros [= <- <- <-]. autorewrite with schedule.
      rewrite Hcb; cbn [app].
      destruct (decide (a = 4)) as [->|Hne].
      * destruct fuel; cbn in Hrec; injection Hrec as <- <- <-;
          apply policy_give_up; by right.
      * apply policy_retry; [unfold transient; by rewrite Hm|lia|].
        eapply IH; [| |exact Hrec]; lia.
  - intros [= <- <- <-]. autorewrite with schedule.
    rewrite Hcb; cbn [app]. apply policy_success.
Qed.

Lemma dl_loop_policy link handle key fuel :
  ∀ a sl st (w : world E) status w' out,
    0 ≤ a < 5 → (Z.to_nat (5 - a) ≤ fuel)%nat →
    dl_loop E fuel link handle key a sl st w = (status, w', out) →
    policy E a sl (schedule out) (bool_decide (status = 0)).
Proof.
  induction fuel as [|fuel IH]; intros a sl st w ok w' out Ha Hfuel; [lia|].
  cbn [dl_loop]. rewrite (proj2 (Z.ltb_lt a 5)) by lia. cbn [negb].
  set (path := if opt_stream (g E w) then None else Some (opt_path (g E w))).
  pose proof (after_xfer_spec
    (mega_session_dl E (s E w) (fs E w) handle key path) w) as (_ & _ & Hcb).
  destruct (after_xfer E _ w) as [w1 out_cb]. cbn [snd] in Hcb.
  destruct (x_err _) as [e|] eqn:Herr.
  - destruct (g_error_matches e _ _) eqn:Hm.
    + intros [= <- <- <-]. autorewrite with schedule.
      rewrite Hcb; cbn [app]. apply policy_give_up. left.
      unfold transient. by rewrite Hm.
    + rewrite gint_succ by done.
      destruct (dl_loop E fuel _ _ _ _ _ _ _) as [[ok2 w2] out2] eqn:Hrec.
      intros [= <- <- <-]. autorewrite with schedule.
      rewrite Hcb; cbn [app].
      destruct (decide (a = 4)) as [->|Hne].
      * destruct fuel; cbn in Hrec; injection Hrec as <- <- <-;
          apply policy_give_up; by right.
      * apply policy_retry; [unfold transient; by rewrite Hm|lia|].
        eapply IH; [| |exact Hrec]; lia.
  - intros [= <- <- <-]. autorewrite with schedule.
    rewrite Hcb; cbn [app]. apply policy_success.
Qed.

(** Five iterations are all the guard allows: any fuel from there on
    gives the same run. *)
Lemma get_loop_fuel local_path remote_path fuel :
  ∀ fuel' a sl st (w : world E),
    0 ≤ a → (Z.to_nat (5 - a) ≤ fuel)%nat → (Z.to_nat (5 - a) ≤ fuel')%nat →
    get_loop E fuel local_path remote_path a sl st w
    = get_loop E fuel' local_path remote_path a sl st w.
Proof.
  induction fuel as [|fuel IH]; intros fuel' a sl st w Ha Hf Hf'.
  - destruct fuel'; cbn [get_loop]; by rewrite (proj2 (Z.ltb_ge a 5)) by lia.
  - destruct (decide (a < 5)) as [Ha5|Ha5].
    + destruct fuel' as [|fuel']; [lia|].
      cbn [get_loop]. rewrite (proj2 (Z.ltb_lt a 5)) by lia. cbn [negb].
      destruct (after_xfer E _ w) as [w1 out_cb].
      destruct (x_err _) as [e|]; [|done].
      destruct (g_error_matches e _ _); [done|].
      rewrite gint_succ by lia. by rewrite (IH fuel') by lia.
    + destruct fuel'; cbn [get_loop]; by rewrite (proj2 (Z.ltb_ge a 5)) by lia.
Qed.

Lemma dl_loop_fuel link handle key fuel :
  ∀ fuel' a sl st (w : world E),
    0 ≤ a → (Z.to_nat (5 - a) ≤ fuel)%nat → (Z.to_nat (5 - a) ≤ fuel')%nat →
    dl_loop E fuel link handle key a sl st w
    = dl_loop E fuel' link handle key a sl st w.
Proof.
  induction fuel as [|fuel IH]; intros fuel' a sl st w Ha Hf Hf'.
  - destruct fuel'; cbn [dl_loop]; by rewrite (proj2 (Z.ltb_ge a 5)) by lia.
  - destruct (decide (a < 5)) as [Ha5|Ha5].
    + destruct fuel' as [|fuel']; [lia|].
      cbn [dl_loop]. rewrite (proj2 (Z.ltb_lt a 5)) by lia. cbn [negb].
      destruct (after_xfer E _ w) as [w1 out_cb].
      destruct (x_err _) as [e|]; [|done].
      destruct (g_error_matches e _ _); [done|].
      rewrite gint_succ by lia. by rewrite (IH fuel') by lia.
    + destruct fuel'; cbn [dl_loop]; by rewrite (proj2 (Z.ltb_ge a 5)) by lia.
Qed.

(** A wait comes first only after a failed attempt of an earlier
    iteration; anywhere else it follows a transient failure. *)
Lemma policy_waits a sl tr ok :
  policy E a sl tr ok →
  ∀ pre us post, tr = pre ++ Wait us :: post →
    (pre = [] ∧ 0 < a)
    ∨ ∃ pre' e, pre = pre' ++ [Attempt (Some e)] ∧ transient E e = true.
Proof.
  induction 1 as [a sl|a sl e He|a sl e tr ok He Ha Hp IH];
    intros pre us post Heq; unfold wait_before in Heq;
    destruct (0 <? a) eqn:Hpos; cbn [app] in Heq.
  - destruct pre as [|? [|? pre]]; simplify_eq/=; [left; split; [done|lia]|].
    by destruct pre.
  - destruct pre as [|? pre]; simplify_eq/=. by destruct pre.
  - destruct pre as [|? [|? pre]]; simplify_eq/=; [left; split; [done|lia]|].
    by destruct pre.
  - destruct pre as [|? pre]; simplify_eq/=. by destruct pre.
  - destruct pre as [|? [|? pre]]; simplify_eq/=; [left; split; [done|lia]|].
    right. destruct (IH pre us post eq_refl) as [[-> _]|(pre' & e' & -> & He')].
    + by exists [Wait sl], e.
    + by exists (Wait sl :: Attempt (Some e) :: pre'), e'.
  - destruct pre as [|? pre]; simplify_eq/=.
    right. destruct (IH pre us post eq_refl) as [[-> _]|(pre' & e' & -> & He')].
    + by exists [], e.
    + by exists (Attempt (Some e) :: pre'), e'.
Qed.

(** One step of a schedule in which every attempt fails and may be
    tried again: the fifth attempt is the last, any earlier one is
    followed by the next iteration. *)
Lemma policy_step a sl tr ok :
  policy E a sl tr ok → all_transient E tr →
  (a = 4 ∧ ok = false ∧ ∃ e, tr = wait_before a sl ++ [Attempt (Some e)])
  ∨ (a < 4 ∧ ∃ e tr',
       tr = wait_before a sl ++ Attempt (Some e) :: tr'
       ∧ policy E (a + 1) (next_sleep a sl) tr' ok ∧ all_transient E tr').
Proof.
  intros Hp Hall. destruct Hp as [a sl|a sl e [He| ->]|a sl e tr ok He Ha Hp].
  - destruct (Hall None) as (e & [=] & _).
    apply elem_of_app. right. left.
  - destruct (Hall (Some e)) as (e' & [= <-] & He').
    + apply elem_of_app. right. left.
    + congruence.
  - left. eauto.
  - right. split; [done|]. exists e, tr. split; [done|]. split; [done|].
    intros o Ho. apply Hall, elem_of_app. right. by right.
Qed.

Lemma policy_bound tr ok : policy E 0 2000000 tr ok → retry_bound E tr ok.
Proof.
  intros Hp. split; [|split].
  - intros Hall.
    destruct (policy_step _ _ _ _ Hp Hall)
      as [(? & _)|(_ & e1 & tr1 & -> & Hp1 & Hall1)]; [lia|].
    destruct (policy_step _ _ _ _ Hp1 Hall1)
      as [(? & _)|(_ & e2 & tr2 & -> & Hp2 & Hall2)]; [lia|].
    destruct (policy_step _ _ _ _ Hp2 Hall2)
      as [(? & _)|(_ & e3 & tr3 & -> & Hp3 & Hall3)]; [lia|].
    destruct (policy_step _ _ _ _ Hp3 Hall3)
      as [(? & _)|(_ & e4 & tr4 & -> & Hp4 & Hall4)]; [lia|].
    destruct (policy_step _ _ _ _ Hp4 Hall4)
      as [(_ & -> & e5 & ->)|(? & _)]; [|lia].
    split; [done|]. by exists e1, e2, e3, e4, e5.
  - intros e tr' -> He.
    inversion Hp as [a sl|a sl e1 [He1|?]|a sl e1 tr1 ok1 He1 Ha1 Hp1]; subst;
      unfold wait_before in *; cbn [Z.ltb Z.compare app] in *;
      simplify_eq; try done.
    congruence.
  - intros pre us post Heq.
    destruct (policy_waits _ _ _ _ Hp pre us post Heq) as [[_ ?]|?]; [lia|done].
Qed.

(** *** The tree walk *)

Lemma dl_sync_dir_unfold node file remote_path w :
  dl_sync_dir E node file remote_path w =
  if negb (g_file_query_exists (fs E w) file) then
    let out_d :=
      when (negb (opt_noprogress (g E w))) [Print ("D " +:+ file +:+ nl)] in
    match g_file_make_directory E (fs E w) file with
    | inr local_err =>
        (false, w,
         out_d ++
         [ MakeDirectory file (Some local_err);
           PrintErr ("ERROR: Can't create local directory " +:+ file
                     +:+ ": " +:+ message local_err +:+ nl) ])
    | inl fs' =>
        let '(status, w', out) :=
          sync_children E (sync_child E) file remote_path
                        (node_children node) true (set_fs E fs' w) in
        (status, w', out_d ++ MakeDirectory file None :: out)
    end
  else if negb (bool_decide (g_file_query_file_type (fs E w) file
                             = G_FILE_TYPE_DIRECTORY)) then
    (false, w,
     [PrintErr ("ERROR: Can't create local directory " +:+ file
                +:+ ": file exists" +:+ nl)])
  else
    sync_children E (sync_child E) file remote_path (node_children node) true w.
Proof. by destruct node. Qed.

(** The loop over the children takes the step of every child, whatever
    the steps before returned. *)
Lemma sync_children_steps sync file remote_path children :
  ∀ st (w : world E),
    sync_children E sync file remote_path children st w
    = (st && forallb (step_ok E)
               (child_steps E sync file remote_path children w),
       world_after E w (child_steps E sync file remote_path children w),
       mjoin (step_output E <$> child_steps E sync file remote_path children w))
    ∧ length (child_steps E sync file remote_path children w)
      = length children.
Proof.
  induction children as [|child rest IH]; intros st w;
    cbn [sync_children child_steps].
  - split; [|done]. by destruct st.
  - destruct (sync child _ _ w) as [[ok w1] out1] eqn:Hstep. cbn [fst snd].
    destruct (IH (if negb ok then false else st) w1) as [-> Hlen].
    split; [|cbn [length]; by rewrite Hlen].
    unfold world_after. cbn. by destruct ok, st.
Qed.

(** A run of the loop that shows nothing made no iteration. *)
Lemma get_loop_silent l r fuel a sl st (w : world E) ok w' :
  get_loop E fuel l r a sl st w = (ok, w', []) → ok = st.
Proof.
  destruct fuel; cbn [get_loop]; destruct (negb (a <? 5));
    try (by intros [= <- <-]).
  destruct (after_xfer E _ w) as [w1 out_cb].
  destruct (x_err _) as [e|];
    [destruct (g_error_matches e _ _);
     [|destruct (get_loop E fuel _ _ _ _ _ _) as [[? ?] ?]]|];
    intros [= _ _ Hout]; by apply app_eq_nil in Hout as [_ ?].
Qed.

Lemma get_loop_runs l r fuel a sl st (w : world E) ok w' out :
  a < 5 → get_loop E (S fuel) l r a sl st w = (ok, w', out) → out ≠ [].
Proof.
  intros Ha. cbn [get_loop]. rewrite (proj2 (Z.ltb_lt a 5)) by done. cbn [negb].
  destruct (after_xfer E _ w) as [w1 out_cb].
  destruct (x_err _) as [e|];
    [destruct (g_error_matches e _ _);
     [|destruct (get_loop E fuel _ _ _ _ _ _) as [[? ?] ?]]|];
    intros [= _ _ <-] Hout; by apply app_eq_nil in Hout as [_ ?].
Qed.

Section Walk.
Hypothesis Hframe : get_frame E.

Lemma walk_inv_refl w out :
  Forall (fun e => is_creation e = false) out → walk_inv E w w out.
Proof.
  intros H. split; [done|].
  split; [intros p r err Hin|intros _ p r Hin]; find_event.
Qed.

Lemma walk_inv_trans w w1 w2 out1 out2 :
  walk_inv E w w1 out1 → walk_inv E w1 w2 out2 →
  walk_inv E w w2 (out1 ++ out2).
Proof.
  intros (H1 & N1 & G1) (H2 & N2 & G2). split; [by etrans|]. split.
  - intros p r err [Hin|Hin]%elem_of_app; [by eapply N1|].
    eapply lookup_weaken_None; [by eapply N2|done].
  - intros Hc p r [Hin|Hin]%elem_of_app; [|by eapply G2].
    eapply lookup_weaken; [by eapply G1|done].
Qed.

(** The retry loop touches nothing but its target, and ends in
    success exactly when its last fetch succeeded. *)
Lemma get_loop_fs l r fuel :
  ∀ a sl st (w : world E) ok w' out,
    get_loop E fuel l r a sl st w = (ok, w', out) →
    (∀ p, p ≠ l → fs E w' !! p = fs E w !! p)
    ∧ (∀ p r' err, SessionGet p r' err ∈ out → p = l)
    ∧ (ok = true → out ≠ [] → SessionGet l r None ∈ out)
    ∧ (∀ p r', SessionGet p r' None ∈ out →
         ok = true
         ∧ (get_creates E → fs E w' !! l = Some G_FILE_TYPE_REGULAR)).
Proof.
  induction fuel as [|fuel IH]; intros a sl st w ok w' out; cbn [get_loop].
  - destruct (negb (a <? 5)); intros [= <- <- <-];
      repeat split; try done; by intros; find_event.
  - destruct (negb (a <? 5)).
    { intros [= <- <- <-]. repeat split; try done; by intros; find_event. }
    pose proof (after_xfer_spec (mega_session_get E (s E w) (fs E w) l r) w)
      as (Hfs & Hcb & _).
    destruct (after_xfer E _ w) as [w1 out_cb]. cbn [fst snd] in Hfs, Hcb.
    assert (Hnotice :
      Forall (fun e => is_creation e = false) (retry_notice a sl)).
    { unfold retry_notice. destruct (0 <? a); by repeat constructor. }
    assert (Hother : ∀ p, p ≠ l → fs E w1 !! p = fs E w !! p).
    { intros p Hp. rewrite Hfs. by apply Hframe. }
    destruct (x_err _) as [e|] eqn:Herr.
    + destruct (g_error_matches e _ _).
      * intros [= <- <- <-]. split; [done|]. split; [|split; [done|]].
        -- intros p r' err Hin. find_event. done.
        -- intros p r' Hin. exfalso. find_event.
      * destruct (get_loop E fuel _ _ _ _ _ _) as [[ok2 w2] out2] eqn:Hrec.
        intros [= <- <- <-].
        destruct (IH _ _ _ _ _ _ _ Hrec) as (IH1 & IH2 & IH3 & IH4).
        split; [|split; [|split]].
        -- intros p Hp. rewrite IH1 by done. by apply Hother.
        -- intros p r' err Hin. find_event; [done|]. exact (IH2 _ _ _ Hin).
        -- intros Hok _.
           destruct (decide (out2 = [])) as [->|Hne].
           ++ apply get_loop_silent in Hrec. congruence.
           ++ repeat first [apply elem_of_app; right|apply elem_of_cons; right].
              by apply IH3.
        -- intros p r' Hin. find_event. exact (IH4 _ _ Hin).
    + intros [= <- <- <-]. split; [done|]. split; [|split].
      * intros p r' err Hin. find_event. done.
      * intros _ _. apply elem_of_app. right. left.
      * intros p r' Hin. split; [done|]. intros Hcreates.
        rewrite Hfs. by apply Hcreates.
Qed.

Lemma dl_sync_file_inv node file remote_path (w : world E) ok w' out :
  dl_sync_file E node file remote_path w = (ok, w', out) →
  walk_inv E w w' out
  ∧ (ok = true → SessionGet file remote_path None ∈ out).
Proof.
  unfold dl_sync_file, g_file_query_exists, g_file_get_path.
  case_bool_decide as Hex.
  - intros [= <- <- <-]. split; [|done].
    apply walk_inv_refl. by repeat constructor.
  - destruct (get_loop E 5 _ _ _ _ _ _) as [[st w1] out1] eqn:Hloop.
    destruct (get_loop_fs _ _ _ _ _ _ _ _ _ _ Hloop) as (H1 & H2 & H3 & H4).
    assert (Hsub : fs E w ⊆ fs E w1).
    { apply map_subseteq_spec. intros p t Hp.
      rewrite H1; [done|]. intros ->. destruct Hex. by eexists. }
    assert (Hnew : ∀ p r' err,
              SessionGet p r' err ∈ out1 → fs E w !! p = None).
    { intros p r' err Hin. rewrite (H2 _ _ _ Hin).
      destruct (fs E w !! file) eqn:Hl; [|done].
      destruct Hex. by eexists. }
    destruct st; cbn [negb]; intros [= <- <- <-].
    + assert (Hne : out1 ≠ [])
        by (eapply get_loop_runs; [|exact Hloop]; lia).
      split.
      * split; [done|]. split.
        -- intros p r' err Hin. find_event. by eapply Hnew.
        -- intros Hc p r' Hin. find_event.
           pose proof (H2 _ _ _ Hin) as ->. by apply H4 in Hin as [_ ?]; auto.
      * intros _. apply elem_of_app. right. apply elem_of_app. left.
        by apply H3.
    + split; [|done].
      split; [done|]. split.
      * intros p r' err Hin. find_event. by eapply Hnew.
      * intros Hc p r' Hin. find_event. by apply H4 in Hin as [[=] _].
Qed.

Lemma sync_children_inv sync file remote_path children :
  Forall (fun child => ∀ f r (w : world E) ok w' out,
            sync child f r w = (ok, w', out) → walk_inv E w w' out)
         children →
  ∀ st (w : world E) st' w' out,
    sync_children E sync file remote_path children st w = (st', w', out) →
    walk_inv E w w' out.
Proof.
  induction 1 as [|child rest Hc _ IH]; intros st w st' w' out;
    cbn [sync_children].
  - intros [= <- <- <-]. apply walk_inv_refl. constructor.
  - destruct (sync child _ _ w) as [[ok w1] out1] eqn:Hstep.
    destruct (sync_children E sync _ _ rest _ w1) as [[st2 w2] out2] eqn:Hrest.
    intros [= <- <- <-]. eapply walk_inv_trans; [by eapply Hc|by eapply IH].
Qed.

Lemma dl_sync_dir_inv node :
  ∀ file remote_path (w : world E) ok w' out,
    dl_sync_dir E node file remote_path w = (ok, w', out) →
    walk_inv E w w' out.
Proof.
  induction node as [name type children IH] using mega_node_nested_ind.
  intros file remote_path w ok w' out. rewrite dl_sync_dir_unfold.
  assert (Hch : Forall (fun child => ∀ f r (w : world E) ok w' out,
            sync_child E child f r w = (ok, w', out) → walk_inv E w w' out)
            children).
  { eapply Forall_impl; [exact IH|]. intros child Hchild f r w0 ok0 w0' out0.
    unfold sync_child. destruct (node_type child =? 0); [|by apply Hchild].
    intros Hf. by apply dl_sync_file_inv in Hf as [? _]. }
  cbn [node_children].
  unfold g_file_query_exists, g_file_make_directory, g_file_get_path.
  destruct (fs E w !! file) as [t|] eqn:Hl.
  - rewrite bool_decide_eq_true_2 by eauto. cbn [negb].
    destruct (negb _).
    + intros [= <- <- <-]. apply walk_inv_refl. by repeat constructor.
    + by apply sync_children_inv.
  - rewrite bool_decide_eq_false_2 by (by intros [? ?]). cbn [negb].
    destruct (make_directory_error E (fs E w) file) as [err|].
    + intros [= <- <- <-]. split; [done|].
      split; [intros p r e Hin|intros _ p r Hin]; find_event.
    + destruct (sync_children E _ _ _ _ _ _) as [[st2 w2] out2] eqn:Hrest.
      intros [= <- <- <-].
      apply sync_children_inv in Hrest as (Hsub & Hnew & Hget); [|done].
      assert (Hins : fs E w ⊆ fs E (set_fs E
                (<[file:=G_FILE_TYPE_DIRECTORY]> (fs E w)) w))
        by (cbn [set_fs fs]; by apply insert_subseteq).
      split; [by etrans|]. split.
      * intros p r e Hin.
        find_event; (eapply lookup_weaken_None; [by eapply Hnew|done]).
      * intros Hc p r Hin. find_event; by eapply Hget.
Qed.

Lemma child_steps_fetched file remote_path children :
  ∀ (w : world E) j child r,
    children !! j = Some child → node_type child = 0 →
    child_steps E (sync_child E) file remote_path children w !! j = Some r →
    step_ok E r = true →
    SessionGet (g_file_get_child file (node_name child))
               (remote_path +:+ "/" +:+ node_name child) None ∈ step_output E r.
Proof.
  induction children as [|c rest IH]; intros w [|j] child r Hj Hty Hr Hok;
    cbn [child_steps] in Hr; simplify_eq/=.
  - unfold sync_child in Hok |- *. rewrite Hty in Hok |- *. cbn in Hok |- *.
    destruct (dl_sync_file E child _ _ w) as [[ok w1] out1] eqn:Hstep.
    apply dl_sync_file_inv in Hstep as [_ Hin]. by apply Hin.
  - by eapply IH.
Qed.

End Walk.

(** *** The claims *)

(** C2: in either retry loop (that of [dl_sync_file] around
    [mega_session_get], that of [main] around [mega_session_dl]), when
    every attempt fails with a transient error there are exactly five
    attempts, with waits of 2, 4, 8 and 16 seconds (in microseconds)
    between them, and the loop gives up; when the first attempt fails
    with a permanent error it is the only attempt and no wait follows;
    and a wait only ever follows an attempt that failed with a
    transient error. *)
Theorem retry_loops_bound :
  (∀ node file remote_path (w : world E) ok w' out,
     fs E w !! file = None →
     dl_sync_file E node file remote_path w = (ok, w', out) →
     retry_bound E (schedule out) ok)
  ∧ (∀ av_i rest handle key status (w : world E) status' w' out,
       classify (tool_convert_filename E av_i false) = FileRef handle key →
       rest = [] →
       process_links E (av_i :: rest) status w = (status', w', out) →
       retry_bound E (schedule out) (bool_decide (status' = 0))).
Proof.
  split.
  - intros node file r w ok w' out Hnone.
    unfold dl_sync_file, g_file_query_exists, g_file_get_path.
    rewrite bool_decide_eq_false_2 by (rewrite Hnone; by intros [? ?]).
    destruct (get_loop E 5 file r 0 2000000 true w) as [[st w1] out1] eqn:Hrun.
    assert (Hb : retry_bound E (schedule out1) st).
    { apply policy_bound. eapply get_loop_policy; [| |exact Hrun]; [lia|simpl; lia]. }
    destruct st; cbn [negb]; intros [= <- <- <-];
      autorewrite with schedule; exact Hb.
  - intros av_i rest h k st w st' w' out Hcl ->.
    cbn [process_links]. rewrite Hcl.
    destruct (dl_loop E 5 _ h k 0 2000000 st w) as [[st1 w1] out1] eqn:Hrun.
    intros [= <- <- <-]. autorewrite with schedule.
    apply policy_bound. eapply dl_loop_policy; [| |exact Hrun]; [lia|simpl; lia].
Qed.

(** C5: a file step whose local target exists, as a file or as a
    directory, fails with the error "File already exists", changes
    nothing and issues no fetch; and, the session touching no local
    path but the target of a fetch, no fetch of a whole tree walk goes
    to a path that was there when the walk began, and all that was
    there is still there, as it was, when the walk ends. *)
Theorem tree_sync_never_overwrites :
  (∀ node file remote_path (w : world E),
     is_Some (fs E w !! file) →
     dl_sync_file E node file remote_path w
     = (false, w, [PrintErr ("ERROR: File already exists at " +:+ file +:+ nl)]))
  ∧ (get_frame E →
     ∀ node file remote_path (w : world E) ok w' out,
       dl_sync_dir E node file remote_path w = (ok, w', out) →
       fs E w ⊆ fs E w'
       ∧ ∀ p r err, SessionGet p r err ∈ out → fs E w !! p = None).
Proof.
  split.
  - intros node file r w Hex. unfold dl_sync_file, g_file_query_exists.
    by rewrite bool_decide_eq_true_2.
  - intros Hframe node file r w ok w' out Hrun.
    apply (dl_sync_dir_inv Hframe) in Hrun as (Hsub & Hnew & _). by split.
Qed.

(** C6: the step [dl_sync_dir] takes on the directory itself, by what
    is at the local target.  Nothing there: the directory is created
    and the children are synchronised in it, and when the creation
    fails the step fails, with nothing changed.  A directory there: the
    children are synchronised in it, as it is.  Anything else there:
    the step fails at once, with nothing changed. *)
Theorem dl_sync_dir_step node file remote_path (w : world E) :
  let children :=
    sync_children E (sync_child E) file remote_path (node_children node) true in
  let out_d :=
    when (negb (opt_noprogress (g E w))) [Print ("D " +:+ file +:+ nl)] in
  match fs E w !! file with
  | None =>
      match make_directory_error E (fs E w) file with
      | None =>
          dl_sync_dir E node file remote_path w =
          (let '(status, w', out) :=
             children (set_fs E (<[file := G_FILE_TYPE_DIRECTORY]> (fs E w)) w) in
           (status, w', out_d ++ MakeDirectory file None :: out))
      | Some err =>
          dl_sync_dir E node file remote_path w =
          (false, w,
           out_d ++
           [ MakeDirectory file (Some err);
             PrintErr ("ERROR: Can't create local directory " +:+ file
                       +:+ ": " +:+ message err +:+ nl) ])
      end
  | Some G_FILE_TYPE_DIRECTORY =>
      dl_sync_dir E node file remote_path w = children w
  | Some _ =>
      dl_sync_dir E node file remote_path w =
      (false, w,
       [PrintErr ("ERROR: Can't create local directory " +:+ file
                  +:+ ": file exists" +:+ nl)])
  end.
Proof.
  intros children out_d. rewrite dl_sync_dir_unfold.
  unfold g_file_query_exists, g_file_query_file_type, g_file_make_directory.
  destruct (fs E w !! file) as [t|] eqn:Hl.
  - rewrite bool_decide_eq_true_2 by eauto. simpl.
    destruct t; by simpl.
  - rewrite bool_decide_eq_false_2 by (by intros [? ?]). simpl.
    by destruct (make_directory_error E (fs E w) file).
Qed.

Lemma set_fs_same (w : world E) : set_fs E (fs E w) w = w.
Proof. by destruct w. Qed.

(** C7: [dl_sync_dir] takes the step of every child of the node, in
    the order of the session, whatever the steps of the elder siblings
    returned: its result is the conjunction of the success of its step on
    the directory itself and of the results of all these steps, its
    output holds the output of every one of them, and it ends in the world
    the last of them left.  A file child whose step succeeded has its
    fetch in the output; and every fetch that succeeded, anywhere in the
    walk, has left a regular file that is still there when the walk ends,
    whatever failed before or after it.  So when one of N files fails the
    result is false and the other N-1 files are in place. *)
Theorem dl_sync_dir_aggregates node file remote_path (w : world E) ok w' out :
  get_frame E → get_creates E →
  dl_sync_dir E node file remote_path w = (ok, w', out) →
  let steps :=
    child_steps E (sync_child E) file remote_path (node_children node)
      (set_fs E (after_dir_step (fs E w) file) w) in
  ok = dir_step_ok E (fs E w) file && forallb (step_ok E) steps
  ∧ length steps = length (node_children node)
  ∧ (dir_step_ok E (fs E w) file = true →
     w' = world_after E (set_fs E (after_dir_step (fs E w) file) w) steps
     ∧ (∃ out_d, out = out_d ++ mjoin (step_output E <$> steps))
     ∧ ∀ j child r,
         node_children node !! j = Some child → node_type child = 0 →
         steps !! j = Some r → step_ok E r = true →
         SessionGet (g_file_get_child file (node_name child))
                    (remote_path +:+ "/" +:+ node_name child) None ∈ out)
  ∧ (∀ p r, SessionGet p r None ∈ out →
       fs E w' !! p = Some G_FILE_TYPE_REGULAR).
Proof.
  intros Hframe Hcreates Hrun. cbv zeta.
  pose proof (dl_sync_dir_inv Hframe _ _ _ _ _ _ _ Hrun) as (_ & _ & Hmat).
  specialize (Hmat Hcreates).
  set (w0 := set_fs E (after_dir_step (fs E w) file) w).
  pose proof (sync_children_steps (sync_child E) file remote_path
                (node_children node) true w0) as [Hst Hlen].
  set (steps := child_steps E (sync_child E) file remote_path
                  (node_children node) w0) in *.
  assert (Hfetched : ∀ j child r,
            node_children node !! j = Some child → node_type child = 0 →
            steps !! j = Some r → step_ok E r = true →
            SessionGet (g_file_get_child file (node_name child))
                       (remote_path +:+ "/" +:+ node_name child) None
            ∈ mjoin (step_output E <$> steps)).
  { intros j child r Hj Hty Hr Hok.
    apply list_elem_of_join. exists (step_output E r). split.
    - by eapply (child_steps_fetched Hframe).
    - apply list_elem_of_fmap. exists r. split; [done|].
      by eapply list_elem_of_lookup_2. }
  rewrite dl_sync_dir_unfold in Hrun.
  unfold g_file_query_exists, g_file_query_file_type, g_file_make_directory
    in Hrun.
  unfold dir_step_ok.
  destruct (fs E w !! file) as [t|] eqn:Hl.
  - assert (Hw0 : w0 = w).
    { unfold w0, after_dir_step. rewrite Hl. apply set_fs_same. }
    rewrite bool_decide_eq_true_2 in Hrun by eauto.
    cbn [negb default] in Hrun.
    case_bool_decide as Ht; cbn [negb] in Hrun.
    + rewrite <- Hw0, Hst in Hrun. injection Hrun as <- <- <-.
      rewrite bool_decide_eq_true_2 by exact Ht.
      split; [done|]. split; [done|]. split; [|done].
      intros _. split; [done|]. split; [by exists []|]. exact Hfetched.
    + injection Hrun as <- <- <-.
      rewrite bool_decide_eq_false_2 by exact Ht. by repeat split.
  - rewrite bool_decide_eq_false_2 in Hrun by (by intros [? ?]).
    cbn [negb] in Hrun.
    destruct (make_directory_error E (fs E w) file) as [err|].
    + injection Hrun as <- <- <-. by repeat split.
    + rewrite bool_decide_eq_true_2 by done.
      assert (Hw0 : w0 = set_fs E (<[file:=G_FILE_TYPE_DIRECTORY]> (fs E w)) w).
      { unfold w0, after_dir_step. by rewrite Hl. }
      rewrite <- Hw0, Hst in Hrun. injection Hrun as <- <- <-.
      split; [done|]. split; [done|]. split; [|done].
      intros _. split; [done|]. split.
      * eexists (_ ++ [_]). by rewrite <- app_assoc.
      * intros j child r Hj Hty Hr Hok.
        apply elem_of_app. right. right. by eapply Hfetched.
Qed.





(** The folder branch is the body of the loop for a folder link. *)
Lemma process_links_folder av_i rest handle key status (w : world E) :
  classify (tool_convert_filename E av_i false) = FolderRef handle key →
  opt_stream (g E w) = false →
  process_links E (av_i :: rest) status w
  = (let '(status1, w1, out1) :=
       dl_folder E (tool_convert_filename E av_i false) handle key status w in
     let '(status2, w2, out2) := process_links E rest status1 w1 in
     (status2, w2, out1 ++ out2)).
Proof. intros Hcl Hs. cbn [process_links]. by rewrite Hcl, Hs. Qed.


(** C8: with the destination [-], a command line with more than one
    link, or with one link that is a folder link, is refused: [main]
    returns 1, the local files are as they were and no call of the
    session that transfers, opens or lists anything was made (in the
    first case the session is not even started). *)
Theorem stream_exclusive (c : cmdline) (fs0 : FS) :
  arg_path c = Some "-"%string →
  (1 < length (arg_links c))%nat
  ∨ (∃ av1 handle key,
       arg_links c = [av1]
       ∧ classify (tool_convert_filename E av1 false) = FolderRef handle key) →
  exit_status (main E c fs0) = 1
  ∧ final_fs (main E c fs0) = fs0
  ∧ Forall (fun e => is_session_call e = false) (output (main E c fs0)).
Proof.
  intros Hpath Hrefs. unfold main, tool_init. rewrite Hpath.
  cbn -[Z.of_nat Z.ltb Z.eqb length process_links].
  destruct Hrefs as [Hlen|(av1 & handle & key & -> & Hcl)].
  - rewrite (proj2 (Z.ltb_ge _ 2)) by lia.
    rewrite (proj2 (Z.eqb_neq _ 2)) by lia.
    cbn. split; [done|]. split; [done|by repeat constructor].
  - cbn. rewrite Hcl. cbn.
    split; [done|]. split; [done|by repeat constructor].
Qed.

(** A download that succeeds at once sets the exit status to 0,
    whatever it was. *)
Lemma dl_loop_success link handle key status (w : world E) :
  x_err (mega_session_dl E (s E w) (fs E w) handle key
           (if opt_stream (g E w) then None else Some (opt_path (g E w))))
  = None →
  (dl_loop E 5 link handle key 0 2000000 status w).1.1 = 0.
Proof.
  intros Hok. cbn [dl_loop]. change (negb (0 <? 5)) with false. cbn match.
  destruct (after_xfer E _ w) as [w1 out_cb]. by rewrite Hok.
Qed.

End Facts.

(** *** The claims on the examples *)

Import Dl.Scripted Examples.

Lemma scripted_frame ss : get_frame (scripted ss).
Proof.
  intros ss' fs0 l r p Hp. cbn. unfold answer.
  destruct (script ss') as [|rep rest]; [done|].
  destruct (r_err rep); cbn; [done|]. by rewrite lookup_insert_ne.
Qed.

Lemma scripted_creates ss : get_creates (scripted ss).
Proof.
  intros ss' fs0 l r. cbn. unfold answer.
  destruct (script ss') as [|rep rest]; [done|].
  destruct (r_err rep); cbn; [done|]. intros _. by rewrite lookup_insert_eq.
Qed.

(** C1, at the input where the code leaves it: of two file links the
    first fails for good and the second succeeds; [main] returns 0, the
    success of the second link having set the status back to 0. *)
Theorem exit_status_forgets_failure :
  let o := main (scripted fail_then_succeed) batch_two cwd in
  schedule (output o) = [Attempt (Some (other "not found")); Attempt None]
  ∧ Exists (fun e => is_print_err e = true) (output o)
  ∧ exit_status o = 0.
Proof.
  cbv zeta. split; [by vm_compute|]. split; [|by vm_compute].
  apply Exists_exists.
  eexists (PrintErr _). split; [|done].
  vm_compute. do 3 right. left.
Qed.

Lemma retry_loops_bound_witness :
  let E := scripted always_http in
  let w := world_of always_http quiet cwd in
  let r := dl_sync_file E file_a "./a" "/root/a" w in
  fs E w !! "./a"%string = None
  ∧ retry_bound E (schedule r.2) r.1.1
  ∧ schedule r.2
    = [ Attempt (Some (http "timeout")); Wait 2000000;
        Attempt (Some (http "timeout")); Wait 4000000;
        Attempt (Some (http "timeout")); Wait 8000000;
        Attempt (Some (http "timeout")); Wait 16000000;
        Attempt (Some (http "timeout")) ].
Proof.
  intros E w r. split; [vm_compute; reflexivity|]. split.
  - apply (proj1 (retry_loops_bound E) file_a "./a"%string "/root/a"%string
             w r.1.1 r.1.2 r.2).
    + vm_compute; reflexivity.
    + subst r. by destruct (dl_sync_file _ _ _ _ _) as [[? ?] ?].
  - vm_compute; reflexivity.
Defined.

Lemma tree_sync_never_overwrites_witness :
  let E := scripted tree_session in
  let w := world_of tree_session quiet taken in
  is_Some (fs E w !! "./a"%string)
  ∧ dl_sync_file E file_a "./a" "/root/a" w
    = (false, w, [PrintErr ("ERROR: File already exists at " +:+ "./a" +:+ nl)])
  ∧ ∀ r err, SessionGet "./a" r err ∉ (dl_sync_dir E tree "." "/root" w).2.
Proof.
  intros E w.
  assert (Hin : is_Some (fs E w !! "./a"%string))
    by (vm_compute; eauto).
  split; [exact Hin|]. split.
  - exact (proj1 (tree_sync_never_overwrites E) file_a "./a"%string
             "/root/a"%string w Hin).
  - intros r err Hget.
    destruct (dl_sync_dir E tree "." "/root" w) as [[ok w'] out] eqn:Hrun.
    destruct (proj2 (tree_sync_never_overwrites E) (scripted_frame _)
                tree "."%string "/root"%string w ok w' out Hrun) as [_ Hnew].
    specialize (Hnew _ _ _ Hget). destruct Hin as [t Ht]. congruence.
Defined.

Lemma dl_sync_dir_aggregates_witness :
  let E := scripted tree_session in
  let w := world_of tree_session quiet cwd in
  let r := dl_sync_dir E tree "." "/root" w in
  r.1.1 = false
  ∧ step_ok E <$> child_steps E (sync_child E) "." "/root"
                     (node_children tree) w
    = [false; true; true]
  ∧ fs E r.1.2 !! "./d/b"%string = Some G_FILE_TYPE_REGULAR
  ∧ fs E r.1.2 !! "./c"%string = Some G_FILE_TYPE_REGULAR.
Proof.
  intros E w r.
  destruct (dl_sync_dir_aggregates E tree "."%string "/root"%string w
              r.1.1 r.1.2 r.2 (scripted_frame _) (scripted_creates _))
    as (Hok & _ & _ & Hmat).
  { subst r. by destruct (dl_sync_dir _ _ _ _ _) as [[? ?] ?]. }
  split; [rewrite Hok; by vm_compute|].
  split; [by vm_compute|].
  split.
  - apply (Hmat _ "/root/d/b"%string). vm_compute. do 3 right. left.
  - apply (Hmat _ "/root/c"%string). vm_compute. do 4 right. left.
Defined.

Lemma stream_exclusive_witness :
  let o := main (scripted fail_then_succeed) stream_two cwd in
  exit_status o = 1
  ∧ final_fs o = cwd
  ∧ Forall (fun e => is_session_call e = false) (output o).
Proof.
  apply (stream_exclusive (scripted fail_then_succeed) stream_two cwd).
  - reflexivity.
  - left. simpl. lia.
Defined.


(** The children of the remote root land in the destination itself. *)
Example folder_into_destination :
  let o := main (scripted tree_session) one_folder cwd in
  exit_status o = 1
  ∧ final_fs o !! "./d"%string = Some G_FILE_TYPE_DIRECTORY
  ∧ final_fs o !! "./d/b"%string = Some G_FILE_TYPE_REGULAR
  ∧ final_fs o !! "./c"%string = Some G_FILE_TYPE_REGULAR
  ∧ final_fs o !! "./root"%string = None.
Proof. cbv zeta. repeat split; by vm_compute. Qed.

End DlFacts.

(** ** The watcher, the schedules, the tree and whole runs *)

Module RunFacts.
Import Chars Links Dl DlFacts.

Section Runs.
Context (E : env).
Hint Rewrite schedule_app schedule_retry_notice schedule_get schedule_dl
  schedule_when_print schedule_printerr (@app_nil_r obs) : schedule.

(** *** The watcher at work *)

Lemma deliver_app evs1 evs2 g0 :
  deliver (evs1 ++ evs2) g0
  = (let '(g1, out1) := deliver evs1 g0 in
     let '(g2, out2) := deliver evs2 g1 in
     (g2, out1 ++ out2)).
Proof.
  revert g0. induction evs1 as [|d evs1 IH]; intros g0.
  - cbn [app deliver]. by destruct (deliver evs2 g0).
  - cbn [app deliver]. destruct (status_callback d g0) as [[b g1] out1].
    rewrite IH. destruct (deliver evs1 g1) as [g2 out2].
    destruct (deliver evs2 g2) as [g3 out3]. by rewrite app_assoc.
Qed.

Lemma deliver_cons d evs g0 :
  (deliver (d :: evs) g0).2
  = (status_callback d g0).2 ++ (deliver evs (status_callback d g0).1.2).2.
Proof.
  cbn [deliver]. destruct (status_callback d g0) as [[b g1] out1].
  cbn [fst snd]. by destruct (deliver evs g1).
Qed.

Lemma status_callback_out d g0 :
  (status_callback d g0).2
  = match d with
    | MEGA_STATUS_DATA buf => when (opt_stream g0) [Fwrite buf]
    | MEGA_STATUS_PROGRESS _ _ =>
        when (negb (opt_noprogress g0)) [ShowProgress (cur_file g0) d]
    | MEGA_STATUS_FILEINFO _ => []
    end.
Proof.
  destruct d; cbn; by destruct (opt_noprogress g0), (opt_stream g0).
Qed.

Lemma deliver_no_progress evs : ∀ g0,
  opt_noprogress g0 = true →
  (deliver evs g0).2
  = Fwrite <$> (if opt_stream g0 then omap data_buf evs else []).
Proof.
  induction evs as [|d evs IH]; intros g0 Hq.
  - by destruct (opt_stream g0).
  - rewrite deliver_cons, status_callback_out.
    destruct (status_callback_opts d g0) as (_ & Hs & Hn & _).
    rewrite IH, Hs, Hq by congruence.
    destruct d, (opt_stream g0); done.
Qed.

(** X4: in stream mode the watcher writes every data buffer it is
    handed to standard output, in the order received and once each, and
    outside stream mode it writes none; without progress display this is
    all the watcher does. *)
Theorem watcher_streams evs g0 :
  omap written (deliver evs g0).2
  = (if opt_stream g0 then omap data_buf evs else [])
  ∧ (opt_noprogress g0 = true →
     (deliver evs g0).2
     = Fwrite <$> (if opt_stream g0 then omap data_buf evs else [])).
Proof.
  split; [|apply deliver_no_progress].
  revert g0. induction evs as [|d evs IH]; intros g0.
  - by destruct (opt_stream g0).
  - rewrite deliver_cons, status_callback_out.
    destruct (status_callback_opts d g0) as (_ & Hs & _).
    rewrite omap_app, IH, Hs.
    destruct d, (opt_stream g0), (opt_noprogress g0); done.
Qed.

(** X5: every progress event is displayed under the name announced
    by the latest FILEINFO event received before it, or under the name
    [cur_file] held before if there was none; with --no-progress nothing
    is displayed. *)
Theorem progress_display evs g0 :
  (opt_noprogress g0 = true →
   Forall (fun e => is_show_progress e = false) (deliver evs g0).2)
  ∧ (opt_noprogress g0 = false →
     ∀ total done,
       (deliver (evs ++ [MEGA_STATUS_PROGRESS total done]) g0).2
       = (deliver evs g0).2
         ++ [ShowProgress
               (match latest_name evs with
                | Some name => Some name
                | None => cur_file g0
                end)
               (MEGA_STATUS_PROGRESS total done)]).
Proof.
  split.
  - intros Hq. rewrite (deliver_no_progress evs g0 Hq).
    apply Forall_fmap, Forall_true. done.
  - intros Hq total done'. rewrite deliver_app.
    pose proof (deliver_cur_file evs g0) as Hcur.
    pose proof (deliver_opts evs g0) as (_ & _ & Hn & _).
    destruct (deliver evs g0) as [g1 out1]. cbn [fst snd] in *.
    cbn [deliver]. rewrite <- Hcur. cbn. by rewrite Hn, Hq.
Qed.

(** *** The shape of every schedule *)

Lemma omap_wait_before_attempt a sl : omap attempt_of (wait_before a sl) = [].
Proof. unfold wait_before. by destruct (0 <? a). Qed.

Lemma omap_wait_before_wait a sl :
  omap wait_of (wait_before a sl) = if 0 <? a then [sl] else [].
Proof. unfold wait_before. by destruct (0 <? a). Qed.

Lemma policy_shape a sl tr ok :
  policy E a sl tr ok → 0 ≤ a ≤ 4 →
  let attempts := omap attempt_of tr in
  let n := length attempts in
  (1 ≤ n)%nat ∧ a + Z.of_nat n ≤ 5
  ∧ omap wait_of tr = waits_from a sl n
  ∧ (ok = true ↔ last attempts = Some None)
  ∧ (∀ i o, (S i < n)%nat → attempts !! i = Some o → transient_failure E o).
Proof.
  induction 1 as [a sl|a sl e He|a sl e tr ok He Ha Hp IH]; intros Hrange;
    cbn zeta; rewrite !omap_app, omap_wait_before_attempt, omap_wait_before_wait;
    cbn.
  - rewrite app_nil_r. repeat split; try done; try lia.
  - rewrite app_nil_r. repeat split; try done; try lia.
  - destruct IH as (Hn & Hle & Hw & Hok & Htr); [lia|].
    rewrite Hw. repeat split; try lia.
    + intros ->. rewrite last_cons. destruct Hok as [Hok _].
      by rewrite (Hok eq_refl).
    + rewrite last_cons. destruct (last (omap attempt_of tr)) eqn:Hl.
      * intros [= ->]. by apply Hok.
      * apply last_None in Hl. rewrite Hl in Hn. cbn in Hn. lia.
    + intros [|i] o Hi Ho.
      * injection Ho as <-. by exists e.
      * apply (Htr i o); [lia|done].
Qed.

Lemma waits_from_start n :
  (1 ≤ n ≤ 5)%nat → waits_from 0 2000000 n = take (n - 1) backoff.
Proof.
  intros Hn. do 6 (destruct n as [|n]; [by (lia || vm_compute)|]). lia.
Qed.

Lemma policy_retry_shape tr ok : policy E 0 2000000 tr ok → retry_shape E tr ok.
Proof.
  intros Hp. destruct (policy_shape _ _ _ _ Hp) as (Hn & Hle & Hw & Hok & Htr);
    [lia|].
  assert (Hn5 : (1 ≤ length (omap attempt_of tr) ≤ 5)%nat) by lia.
  unfold retry_shape. cbn zeta. rewrite Hw, waits_from_start by done.
  split; [done|]. split; [done|]. split; [|done].
  clear -Hn5. set (n := length _) in *. clearbody n.
  do 6 (destruct n as [|n]; [by (lia || vm_compute)|]). lia.
Qed.

(** X6: whatever the errors, either retry loop makes between one and
    five attempts; the waits between them are the first of 2, 4, 8 and 16
    seconds, 30 seconds at most in all; every attempt but the last has
    failed with a transient error; and the loop succeeds exactly when its
    last attempt does. *)
Theorem retry_loops_shape :
  (∀ node file remote_path (w : world E) ok w' out,
     fs E w !! file = None →
     dl_sync_file E node file remote_path w = (ok, w', out) →
     retry_shape E (schedule out) ok)
  ∧ (∀ link handle key status (w : world E) status' w' out,
       dl_loop E 5 link handle key 0 2000000 status w = (status', w', out) →
       retry_shape E (schedule out) (bool_decide (status' = 0))).
Proof.
  split.
  - intros node file r w ok w' out Hnone.
    unfold dl_sync_file, g_file_query_exists, g_file_get_path.
    rewrite bool_decide_eq_false_2 by (rewrite Hnone; by intros [? ?]).
    destruct (get_loop E 5 file r 0 2000000 true w) as [[st w1] out1] eqn:Hrun.
    assert (Hb : retry_shape E (schedule out1) st).
    { apply policy_retry_shape.
      eapply get_loop_policy; [| |exact Hrun]; [lia|simpl; lia]. }
    destruct st; cbn [negb]; intros [= <- <- <-];
      autorewrite with schedule; exact Hb.
  - intros link h k st w st' w' out Hrun.
    apply policy_retry_shape.
    eapply dl_loop_policy; [| |exact Hrun]; [lia|simpl; lia].
Qed.

(** *** The options stay as the command line set them *)

Lemma same_options_refl g0 : same_options g0 g0.
Proof. done. Qed.

Lemma same_options_trans g0 g1 g2 :
  same_options g0 g1 → same_options g1 g2 → same_options g0 g2.
Proof.
  unfold same_options. intros (? & ? & ? & ?) (? & ? & ? & ?).
  repeat split; congruence.
Qed.

Lemma after_xfer_options x (w : world E) :
  same_options (g E w) (g E (after_xfer E x w).1).
Proof.
  unfold after_xfer. pose proof (deliver_opts (x_events x) (g E w)) as H.
  by destruct (deliver _ _).
Qed.

Lemma get_loop_options l r fuel :
  ∀ a sl st (w : world E),
    same_options (g E w) (g E (get_loop E fuel l r a sl st w).1.2).
Proof.
  induction fuel as [|fuel IH]; intros a sl st w; cbn [get_loop];
    destruct (negb (a <? 5)); try done.
  pose proof (after_xfer_options (mega_session_get E (s E w) (fs E w) l r) w)
    as Hx.
  destruct (after_xfer E _ w) as [w1 out_cb]. cbn [fst] in Hx.
  destruct (x_err _) as [e|]; [|done].
  destruct (g_error_matches e _ _); [done|].
  specialize (IH (gint (a + 1)) (next_sleep a sl) false w1).
  destruct (get_loop E fuel _ _ _ _ _ _) as [[ok2 w2] out2].
  by eapply same_options_trans.
Qed.

Lemma dl_sync_file_options node file r (w : world E) :
  same_options (g E w) (g E (dl_sync_file E node file r w).1.2).
Proof.
  unfold dl_sync_file. destruct (g_file_query_exists _ _); [done|].
  pose proof (get_loop_options (g_file_get_path file) r 5 0 2000000 true w) as H.
  destruct (get_loop E 5 _ _ _ _ _ _) as [[st w1] out1]. by destruct st.
Qed.

Lemma sync_children_options sync file remote_path children :
  Forall (fun child => ∀ f r (w : world E),
            same_options (g E w) (g E (sync child f r w).1.2))
         children →
  ∀ st (w : world E),
    same_options (g E w)
      (g E (sync_children E sync file remote_path children st w).1.2).
Proof.
  induction 1 as [|child rest Hchild _ IH]; intros st w; cbn [sync_children];
    [done|].
  specialize (Hchild (g_file_get_child file (node_name child))
                (remote_path +:+ "/" +:+ node_name child) w).
  destruct (sync child _ _ w) as [[ok w1] out1].
  specialize (IH (if negb ok then false else st) w1).
  destruct (sync_children E sync _ _ rest _ w1) as [[st2 w2] out2].
  by eapply same_options_trans.
Qed.

Lemma dl_sync_dir_options node :
  ∀ file r (w : world E),
    same_options (g E w) (g E (dl_sync_dir E node file r w).1.2).
Proof.
  induction node as [name type children IH] using mega_node_nested_ind.
  intros file r w. rewrite dl_sync_dir_unfold. cbn [node_children].
  assert (Hloop : ∀ st (w0 : world E),
    same_options (g E w0)
      (g E (sync_children E (sync_child E) file r children st w0).1.2)).
  { apply sync_children_options. eapply Forall_impl; [exact IH|].
    intros child Hchild f r0 w0. unfold sync_child.
    destruct (node_type child =? 0); [apply dl_sync_file_options|apply Hchild]. }
  destruct (negb (g_file_query_exists _ _)).
  - destruct (g_file_make_directory E _ _) as [fs'|err]; [|done].
    specialize (Hloop true (set_fs E fs' w)).
    by destruct (sync_children E _ _ _ _ _ _) as [[st2 w2] out2].
  - destruct (negb _); [done|]. apply Hloop.
Qed.

Lemma dl_loop_options link h k fuel :
  ∀ a sl st (w : world E),
    same_options (g E w) (g E (dl_loop E fuel link h k a sl st w).1.2).
Proof.
  induction fuel as [|fuel IH]; intros a sl st w; cbn [dl_loop];
    destruct (negb (a <? 5)); try done.
  set (path := if opt_stream (g E w) then None else Some (opt_path (g E w))).
  pose proof (after_xfer_options (mega_session_dl E (s E w) (fs E w) h k path) w)
    as Hx.
  destruct (after_xfer E _ w) as [w1 out_cb]. cbn [fst] in Hx.
  destruct (x_err _) as [e|]; [|done].
  destruct (g_error_matches e _ _); [done|].
  specialize (IH (gint (a + 1)) (next_sleep a sl) 1 w1).
  destruct (dl_loop E fuel _ _ _ _ _ _ _) as [[ok2 w2] out2].
  by eapply same_options_trans.
Qed.

Lemma dl_folder_options link h k st (w : world E) :
  same_options (g E w) (g E (dl_folder E link h k st w).1.2).
Proof.
  unfold dl_folder.
  destruct (mega_session_open_exp_folder E (s E w) h k) as [s1 [err|]]; [done|].
  cbn [g fs s]. destruct (mega_session_ls E s1 "/" false) as [|root [|? ?]];
    try done.
  destruct (bool_decide _); [|done].
  pose proof (dl_sync_dir_options root (g_file_new_for_path (opt_path (g E w)))
                (mega_node_get_path_dup E root)
                {| g := g E w; fs := fs E w; s := s1 |}) as H.
  by destruct (dl_sync_dir E root _ _ _) as [[ok w2] out].
Qed.

Lemma process_links_options links :
  ∀ st (w : world E),
    same_options (g E w) (g E (process_links E links st w).1.2).
Proof.
  induction links as [|av_i rest IH]; intros st w; cbn [process_links]; [done|].
  destruct (classify _) as [h k|h k|].
  - pose proof (dl_loop_options (tool_convert_filename E av_i false) h k 5
                  0 2000000 st w) as H1.
    destruct (dl_loop E 5 _ h k _ _ _ w) as [[st1 w1] out1].
    specialize (IH st1 w1).
    destruct (process_links E rest st1 w1) as [[st2 w2] out2].
    by eapply same_options_trans.
  - destruct (opt_stream (g E w)); [done|].
    pose proof (dl_folder_options (tool_convert_filename E av_i false) h k
                  st w) as H1.
    destruct (dl_folder E _ h k st w) as [[st1 w1] out1].
    specialize (IH st1 w1).
    destruct (process_links E rest st1 w1) as [[st2 w2] out2].
    by eapply same_options_trans.
  - specialize (IH st w).
    by destruct (process_links E rest st w) as [[st2 w2] out2].
Qed.

(** *** What the functions may show *)

(** Splits a statement about all the events of an output that is
    written out into statements about its parts. *)
Ltac all_events :=
  repeat first
    [ done
    | apply Forall_nil
    | apply Forall_app; split
    | apply Forall_cons; split
    | match goal with |- Forall _ (when ?b _) => destruct b; cbn [when] end
    | match goal with
      | H : ∀ text, is_error_report (PrintErr text) = true → _
        |- _ (PrintErr _) => apply H; reflexivity
      end ].

Section Alphabet.
Variable P : event → Prop.
Hypothesis Hprint : ∀ text, P (Print text).
Hypothesis Hprinterr :
  ∀ text, is_error_report (PrintErr text) = true → P (PrintErr text).
Hypothesis Husleep : ∀ us, P (Usleep us).
Hypothesis Hfwrite : ∀ buf, P (Fwrite buf).
Hypothesis Hshow : ∀ name d, P (ShowProgress name d).

Lemma deliver_all evs : ∀ g0, Forall P (deliver evs g0).2.
Proof.
  induction evs as [|d evs IH]; intros g0; [constructor|].
  rewrite deliver_cons, status_callback_out. apply Forall_app. split; [|done].
  destruct d; all_events.
Qed.

Lemma after_xfer_all x (w : world E) : Forall P (after_xfer E x w).2.
Proof.
  unfold after_xfer. pose proof (deliver_all (x_events x) (g E w)).
  by destruct (deliver _ _).
Qed.

Lemma retry_notice_all a sl : Forall P (retry_notice a sl).
Proof. unfold retry_notice. all_events. Qed.

Lemma get_loop_all l r :
  (∀ err, P (SessionGet l r err)) →
  ∀ fuel a sl st (w : world E), Forall P (get_loop E fuel l r a sl st w).2.
Proof.
  intros Hget. induction fuel as [|fuel IH]; intros a sl st w; cbn [get_loop];
    destruct (negb (a <? 5)); try constructor.
  pose proof (after_xfer_all (mega_session_get E (s E w) (fs E w) l r) w) as Hcb.
  destruct (after_xfer E _ w) as [w1 out_cb]. cbn [snd] in Hcb.
  pose proof (retry_notice_all a sl) as Hn.
  destruct (x_err _) as [e|].
  - destruct (g_error_matches e _ _).
    + cbn [snd]. all_events.
    + specialize (IH (gint (a + 1)) (next_sleep a sl) false w1).
      destruct (get_loop E fuel _ _ _ _ _ _) as [[ok2 w2] out2].
      cbn [snd] in *. all_events.
  - cbn [snd]. all_events.
Qed.

Lemma dl_sync_file_all node file r (w : world E) :
  (∀ err, P (SessionGet file r err)) →
  Forall P (dl_sync_file E node file r w).2.
Proof.
  intros Hget. unfold dl_sync_file, g_file_get_path.
  destruct (g_file_query_exists _ _); [cbn [snd]; all_events|].
  pose proof (get_loop_all file r Hget 5 0 2000000 true w) as Hloop.
  destruct (get_loop E 5 _ _ _ _ _ _) as [[st w1] out1]. cbn [snd] in Hloop.
  destruct st; cbn [negb snd]; all_events.
Qed.

Lemma sync_children_all sync file remote_path children :
  Forall (fun child => ∀ (w : world E),
            Forall P (sync child (g_file_get_child file (node_name child))
                        (remote_path +:+ "/" +:+ node_name child) w).2)
         children →
  ∀ st (w : world E),
    Forall P (sync_children E sync file remote_path children st w).2.
Proof.
  induction 1 as [|child rest Hchild _ IH]; intros st w; cbn [sync_children];
    [constructor|].
  specialize (Hchild w). destruct (sync child _ _ w) as [[ok w1] out1].
  specialize (IH (if negb ok then false else st) w1).
  destruct (sync_children E sync _ _ rest _ w1) as [[st2 w2] out2].
  cbn [snd] in *. by apply Forall_app.
Qed.

Lemma dl_loop_all link h k fuel :
  ∀ a sl st (w : world E),
    (∀ err, P (SessionDl h k (dl_path (g E w)) err)) →
    Forall P (dl_loop E fuel link h k a sl st w).2.
Proof.
  induction fuel as [|fuel IH]; intros a sl st w Hdl; cbn [dl_loop];
    destruct (negb (a <? 5)); try constructor.
  fold (dl_path (g E w)).
  pose proof (after_xfer_all
    (mega_session_dl E (s E w) (fs E w) h k (dl_path (g E w))) w) as Hcb.
  pose proof (after_xfer_options
    (mega_session_dl E (s E w) (fs E w) h k (dl_path (g E w))) w)
    as (Hp & Hs & _).
  destruct (after_xfer E _ w) as [w1 out_cb]. cbn [fst snd] in Hcb, Hp, Hs.
  pose proof (retry_notice_all a sl) as Hn.
  destruct (x_err _) as [e|].
  - destruct (g_error_matches e _ _).
    + cbn [snd]. all_events.
    + specialize (IH (gint (a + 1)) (next_sleep a sl) 1 w1).
      destruct (dl_loop E fuel _ _ _ _ _ _ _) as [[ok2 w2] out2].
      cbn [snd] in *. all_events. apply IH.
      unfold dl_path. by rewrite Hp, Hs.
  - cbn [snd]. all_events.
Qed.

Lemma dl_sync_dir_all :
  (∀ l r err, P (SessionGet l r err)) → (∀ p err, P (MakeDirectory p err)) →
  ∀ node file r (w : world E), Forall P (dl_sync_dir E node file r w).2.
Proof.
  intros Hget Hmk node.
  induction node as [name type children IH] using mega_node_nested_ind.
  intros file r w. rewrite dl_sync_dir_unfold. cbn [node_children].
  assert (Hloop : ∀ st (w0 : world E),
    Forall P (sync_children E (sync_child E) file r children st w0).2).
  { apply sync_children_all. eapply Forall_impl; [exact IH|].
    intros child Hchild w0. unfold sync_child.
    destruct (node_type child =? 0); [by apply dl_sync_file_all|apply Hchild]. }
  unfold g_file_make_directory, g_file_get_path.
  destruct (negb (g_file_query_exists _ _)).
  - destruct (fs E w !! file).
    + cbn [snd]. all_events.
    + destruct (make_directory_error E _ _).
      * cbn [snd]. all_events.
      * specialize (Hloop true
          (set_fs E (<[file:=G_FILE_TYPE_DIRECTORY]> (fs E w)) w)).
        destruct (sync_children E _ _ _ _ _ _) as [[st2 w2] out2].
        cbn [snd] in *. all_events.
  - destruct (negb _); [all_events|]. apply Hloop.
Qed.

Lemma dl_folder_all link h k st (w : world E) :
  (∀ l r err, P (SessionGet l r err)) → (∀ p err, P (MakeDirectory p err)) →
  (∀ err, P (OpenExpFolder h k err)) → P WatchStatus → (∀ p, P (SessionLs p)) →
  Forall P (dl_folder E link h k st w).2.
Proof.
  intros Hget Hmk Hopen Hwatch Hls. unfold dl_folder.
  destruct (mega_session_open_exp_folder E (s E w) h k) as [s1 [err|]].
  - cbn [snd]. all_events.
  - cbn [g fs s].
    destruct (mega_session_ls E s1 "/" false) as [|root [|? ?]];
      cbn [snd]; try all_events.
    destruct (bool_decide _); [|cbn [snd]; all_events].
    pose proof (dl_sync_dir_all Hget Hmk root
                  (g_file_new_for_path (opt_path (g E w)))
                  (mega_node_get_path_dup E root)
                  {| g := g E w; fs := fs E w; s := s1 |}) as H.
    destruct (dl_sync_dir E root _ _ _) as [[ok w2] out].
    cbn [snd] in *. all_events.
Qed.
End Alphabet.


(** *** The waits are announced *)

Lemma split_at_usleep (l1 l2 pre post : list event) us :
  Forall (fun e => is_usleep e = false) l1 →
  l1 ++ l2 = pre ++ Usleep us :: post →
  ∃ pre2, pre = l1 ++ pre2 ∧ l2 = pre2 ++ Usleep us :: post.
Proof.
  intros Hall. revert pre. induction Hall as [|x l1 Hx _ IH]; intros pre Heq.
  - by exists pre.
  - destruct pre as [|y pre]; cbn [app] in Heq; simplify_eq/=.
    destruct (IH pre) as (pre2 & -> & ->); [done|]. by exists pre2.
Qed.

Lemma attempts_in_app out1 out2 :
  attempts_in (out1 ++ out2) = attempts_in out1 + attempts_in out2.
Proof.
  unfold attempts_in. rewrite schedule_app, omap_app, length_app. lia.
Qed.

(** One iteration of either loop: the announcement, if any, then a
    body that holds one attempt and no wait, then the iterations that
    follow. *)
Lemma waits_announced_round a sl body rest :
  Forall (fun e => is_usleep e = false) body →
  attempts_in body = 1 →
  waits_announced (a + 1) rest →
  waits_announced a (retry_notice a sl ++ body ++ rest).
Proof.
  intros Hbody Hone Hrest pre us post Heq.
  assert (Hin : ∀ pre0, body ++ rest = pre0 ++ Usleep us :: post →
    ∃ pre2, pre0 = body ++ pre2
            ∧ ∃ pre', pre2 = pre' ++ [retry_line (a + 1 + attempts_in pre') us]).
  { intros pre0 Hsplit.
    destruct (split_at_usleep _ _ _ _ _ Hbody Hsplit) as (pre2 & -> & Hr).
    exists pre2. split; [done|]. by apply (Hrest _ _ post). }
  unfold retry_notice in *. destruct (0 <? a); cbn [when app] in *.
  - destruct pre as [|e1 [|e2 pre]]; simplify_eq/=.
    + exists []. cbn. unfold attempts_in. cbn. by rewrite Z.add_0_r.
    + match goal with
      | H : body ++ rest = _ |- _ =>
          destruct (Hin _ H) as (pre2 & -> & pre' & ->)
      end.
      exists (retry_line a sl :: Usleep sl :: body ++ pre').
      assert (Hcount :
        attempts_in (retry_line a sl :: Usleep sl :: body ++ pre')
        = 1 + attempts_in pre').
      { change (retry_line a sl :: Usleep sl :: body ++ pre')
          with ([retry_line a sl; Usleep sl] ++ body ++ pre').
        rewrite !attempts_in_app, Hone. unfold attempts_in at 1. cbn. lia. }
      rewrite Hcount, Z.add_assoc. cbn [app]. by rewrite <- !app_assoc.
  - destruct (Hin pre Heq) as (pre2 & -> & pre' & ->).
    exists (body ++ pre').
    rewrite attempts_in_app, Hone, Z.add_assoc. by rewrite <- !app_assoc.
Qed.

Lemma waits_announced_none a out :
  Forall (fun e => is_usleep e = false) out → waits_announced a out.
Proof.
  intros Hall pre us post ->. apply Forall_app in Hall as [_ Hall].
  by apply Forall_cons in Hall as [? _].
Qed.

Lemma no_usleep_callbacks x (w : world E) :
  Forall (fun e => is_usleep e = false) (after_xfer E x w).2.
Proof. by apply after_xfer_all. Qed.

Lemma attempts_in_callbacks x (w : world E) :
  attempts_in (after_xfer E x w).2 = 0.
Proof.
  unfold attempts_in. by rewrite (proj2 (proj2 (after_xfer_spec E x w))).
Qed.

Lemma attempts_in_get l r err out :
  attempts_in (SessionGet l r err :: out) = 1 + attempts_in out.
Proof.
  unfold attempts_in.
  change (omap attempt_of (schedule (SessionGet l r err :: out)))
    with (err :: omap attempt_of (schedule out)).
  cbn [length]. lia.
Qed.

Lemma attempts_in_dl h k path err out :
  attempts_in (SessionDl h k path err :: out) = 1 + attempts_in out.
Proof.
  unfold attempts_in.
  change (omap attempt_of (schedule (SessionDl h k path err :: out)))
    with (err :: omap attempt_of (schedule out)).
  cbn [length]. lia.
Qed.

Lemma attempts_in_when_print b text : attempts_in (when b [Print text]) = 0.
Proof. by destruct b. Qed.

Lemma get_loop_announces l r fuel :
  ∀ a sl st (w : world E),
    0 ≤ a → waits_announced a (get_loop E fuel l r a sl st w).2.
Proof.
  induction fuel as [|fuel IH]; intros a sl st w Ha; cbn [get_loop];
    destruct (negb (a <? 5)) eqn:Hlt;
    try (apply waits_announced_none; constructor).
  apply negb_false_iff, Z.ltb_lt in Hlt.
  pose proof (no_usleep_callbacks
    (mega_session_get E (s E w) (fs E w) l r) w) as Hcb.
  pose proof (attempts_in_callbacks
    (mega_session_get E (s E w) (fs E w) l r) w) as Hzero.
  destruct (after_xfer E _ w) as [w1 out_cb]. cbn [snd] in Hcb, Hzero.
  destruct (x_err _) as [e|].
  - set (body := (SessionGet l r (Some e) :: out_cb)
                 ++ when (negb (opt_noprogress (g E w1)))
                      [Print (cr +:+ ESC_CLREOL E)]
                 ++ [PrintErr ("ERROR: Download failed for " +:+ r +:+ ": "
                               +:+ message e +:+ nl)]).
    assert (Hbody : Forall (fun e => is_usleep e = false) body)
      by (unfold body; all_events).
    assert (Hone : attempts_in body = 1).
    { unfold body. cbn [app].
      rewrite attempts_in_get, !attempts_in_app, Hzero, attempts_in_when_print.
      done. }
    destruct (g_error_matches e _ _).
    + cbn [snd]. fold body. rewrite <- (app_nil_r body).
      apply waits_announced_round; [done..|].
      apply waits_announced_none. constructor.
    + rewrite gint_succ by lia.
      specialize (IH (a + 1) (next_sleep a sl) false w1).
      destruct (get_loop E fuel _ _ _ _ _ _) as [[ok2 w2] out2].
      cbn [snd] in *. rewrite (app_assoc (_ :: _)). fold body.
      apply waits_announced_round; [done..|]. apply IH. lia.
  - cbn [snd]. rewrite <- (app_nil_r (_ :: _)).
    apply waits_announced_round.
    + all_events.
    + by rewrite attempts_in_get, Hzero.
    + apply waits_announced_none. constructor.
Qed.

Lemma dl_loop_announces link h k fuel :
  ∀ a sl st (w : world E),
    0 ≤ a → waits_announced a (dl_loop E fuel link h k a sl st w).2.
Proof.
  induction fuel as [|fuel IH]; intros a sl st w Ha; cbn [dl_loop];
    destruct (negb (a <? 5)) eqn:Hlt;
    try (apply waits_announced_none; constructor).
  apply negb_false_iff, Z.ltb_lt in Hlt.
  fold (dl_path (g E w)).
  pose proof (no_usleep_callbacks
    (mega_session_dl E (s E w) (fs E w) h k (dl_path (g E w))) w) as Hcb.
  pose proof (attempts_in_callbacks
    (mega_session_dl E (s E w) (fs E w) h k (dl_path (g E w))) w) as Hzero.
  destruct (after_xfer E _ w) as [w1 out_cb]. cbn [snd] in Hcb, Hzero.
  destruct (x_err _) as [e|].
  - set (body := (SessionDl h k (dl_path (g E w)) (Some e) :: out_cb)
                 ++ when (negb (opt_noprogress (g E w1)))
                      [Print (cr +:+ ESC_CLREOL E +:+ nl)]
                 ++ [PrintErr ("ERROR: Download failed for '" +:+ link
                               +:+ "': " +:+ message e +:+ nl)]).
    assert (Hbody : Forall (fun e => is_usleep e = false) body)
      by (unfold body; all_events).
    assert (Hone : attempts_in body = 1).
    { unfold body. cbn [app].
      rewrite attempts_in_dl, !attempts_in_app, Hzero, attempts_in_when_print.
      done. }
    destruct (g_error_matches e _ _).
    + cbn [snd]. fold body. rewrite <- (app_nil_r body).
      apply waits_announced_round; [done..|].
      apply waits_announced_none. constructor.
    + rewrite gint_succ by lia.
      specialize (IH (a + 1) (next_sleep a sl) 1 w1).
      destruct (dl_loop E fuel _ _ _ _ _ _ _) as [[ok2 w2] out2].
      cbn [snd] in *. rewrite (app_assoc (_ :: _)). fold body.
      apply waits_announced_round; [done..|]. apply IH. lia.
  - cbn [snd].
    set (body := (SessionDl h k (dl_path (g E w)) None :: out_cb)
                 ++ when (negb (opt_noprogress (g E w1)))
                      [Print (cr +:+ ESC_CLREOL E +:+ "Downloaded "
                              +:+ fmt_s (cur_file (g E w1)) +:+ nl)]
                 ++ when (opt_print_names (g E w1))
                      [Print (fmt_s (cur_file (g E w1)) +:+ nl)]).
    rewrite <- (app_nil_r body).
    apply waits_announced_round.
    + unfold body. all_events.
    + unfold body. cbn [app].
      by rewrite attempts_in_dl, !attempts_in_app, Hzero,
        !attempts_in_when_print.
    + apply waits_announced_none. constructor.
Qed.

(** X7: every wait of either retry loop is announced on standard
    output by the line printed right before it, "Attempt #n failed,
    trying again in s seconds...", where n is the number of attempts made
    until then and s the length of the wait in seconds. *)
Theorem waits_are_announced :
  (∀ node file remote_path (w : world E),
     waits_announced 0 (dl_sync_file E node file remote_path w).2)
  ∧ (∀ link handle key status (w : world E),
       waits_announced 0 (dl_loop E 5 link handle key 0 2000000 status w).2).
Proof.
  split; [|intros; by apply dl_loop_announces].
  intros node file r w. unfold dl_sync_file, g_file_get_path.
  destruct (g_file_query_exists _ _).
  { apply waits_announced_none. cbn [snd]. all_events. }
  pose proof (get_loop_announces file r 5 0 2000000 true w) as Hloop.
  destruct (get_loop E 5 _ _ _ _ _ _) as [[st w1] out1]. cbn [snd] in Hloop.
  specialize (Hloop (Z.le_refl 0)).
  assert (Hframe : ∀ pre post,
    Forall (fun e => is_usleep e = false) pre →
    attempts_in pre = 0 →
    Forall (fun e => is_usleep e = false) post →
    waits_announced 0 (pre ++ out1 ++ post)).
  { intros pre post Hpre Hzero Hpost head us tl Heq.
    destruct (split_at_usleep _ _ _ _ _ Hpre Heq) as (pre2 & -> & Heq2).
    assert (Hmid : ∃ tl2, out1 = pre2 ++ Usleep us :: tl2).
    { clear -Heq2 Hpost. revert pre2 Heq2.
      induction out1 as [|x out1 IH]; intros pre2 Heq2.
      - cbn [app] in Heq2. rewrite Heq2 in Hpost.
        apply Forall_app in Hpost as [_ Hpost].
        by apply Forall_cons in Hpost as [? _].
      - destruct pre2 as [|y pre2]; cbn [app] in Heq2; simplify_eq/=.
        + by exists out1.
        + destruct (IH pre2) as [tl2 ->]; [done|]. by exists tl2. }
    destruct Hmid as [tl2 Hmid].
    destruct (Hloop _ _ _ Hmid) as [pre' ->].
    exists (pre ++ pre'). rewrite attempts_in_app, Hzero.
    by rewrite <- app_assoc. }
  destruct st; cbn [negb snd].
  - apply Hframe; [all_events|apply attempts_in_when_print|all_events].
  - rewrite <- (app_nil_r out1).
    apply Hframe; [all_events|apply attempts_in_when_print|constructor].
Qed.

(** *** Where the files of a tree go *)

Lemma tree_event_child node child file remote_path e :
  child ∈ node_children node →
  tree_event child (g_file_get_child file (node_name child))
    (remote_path +:+ "/" +:+ node_name child) e →
  tree_event node file remote_path e.
Proof.
  intros Hin. destruct e; cbn [tree_event]; try done.
  - intros (names & leaf & Hd & Hty & _ & -> & ->).
    exists (node_name child :: names), leaf.
    repeat split; try done. by eapply descends_child.
  - intros (names & dir & Hd & ->).
    exists (node_name child :: names), dir. split; [|done].
    by eapply descends_child.
Qed.

(** X8: the local tree is laid out as the remote one: every fetch of
    a walk is for a file of the tree and goes from the remote path to the
    local path that the same names lead to, from the remote path and the
    local directory the walk was given; directories are only made at the
    local paths of nodes of the tree; and the walk opens no folder, lists
    nothing and fetches no link. *)
Theorem dl_sync_dir_layout node :
  ∀ file remote_path (w : world E),
    Forall (tree_event node file remote_path)
           (dl_sync_dir E node file remote_path w).2.
Proof.
  induction node as [name type children IH] using mega_node_nested_ind.
  intros file remote_path w. rewrite dl_sync_dir_unfold.
  set (node := MegaNode name type children).
  assert (Hroot : ∀ err, tree_event node file remote_path (MakeDirectory file err)).
  { intros err. exists [], node. split; [constructor|done]. }
  assert (Hloop : ∀ st (w0 : world E),
    Forall (tree_event node file remote_path)
      (sync_children E (sync_child E) file remote_path children st w0).2).
  { apply sync_children_all. rewrite Forall_forall in IH.
    apply Forall_forall. intros child Hin w0.
    unfold sync_child. destruct (node_type child =? 0) eqn:Hty.
    - apply dl_sync_file_all; try done. intros err.
      exists [node_name child], child.
      split; [by apply descends_child; [|constructor]|].
      split; [by apply Z.eqb_eq|]. by repeat split.
    - eapply Forall_impl; [by apply IH|].
      intros e. by apply (tree_event_child node child). }
  cbn [node_children]. unfold g_file_make_directory, g_file_get_path.
  destruct (negb (g_file_query_exists _ _)).
  - destruct (fs E w !! file).
    + cbn [snd]. all_events.
    + destruct (make_directory_error E _ _).
      * cbn [snd]. all_events.
      * specialize (Hloop true
          (set_fs E (<[file:=G_FILE_TYPE_DIRECTORY]> (fs E w)) w)).
        destruct (sync_children E _ _ _ _ _ _) as [[st2 w2] out2].
        cbn [snd] in *. all_events.
  - destruct (negb _); [all_events|]. apply Hloop.
Qed.

(** *** The tree on disk after a walk *)

Lemma mirrored_unfold fs0 file node :
  mirrored fs0 file node
  = bool_decide (fs0 !! file = Some G_FILE_TYPE_DIRECTORY)
    && forallb
         (fun child =>
            if node_type child =? 0
            then bool_decide (fs0 !! g_file_get_child file (node_name child)
                              = Some G_FILE_TYPE_REGULAR)
            else mirrored fs0 (g_file_get_child file (node_name child)) child)
         (node_children node).
Proof. by destruct node. Qed.

Lemma files_of_unfold file node :
  files_of file node
  = flat_map
      (fun child =>
         if node_type child =? 0 then [g_file_get_child file (node_name child)]
         else files_of (g_file_get_child file (node_name child)) child)
      (node_children node).
Proof. by destruct node. Qed.

Lemma mirrored_mono (fs0 fs1 : FS) :
  fs0 ⊆ fs1 → ∀ node file,
  mirrored fs0 file node = true → mirrored fs1 file node = true.
Proof.
  intros Hsub node.
  induction node as [name type children IH] using mega_node_nested_ind.
  intros file. rewrite !mirrored_unfold. cbn [node_children].
  intros [Hd Hc]%andb_prop. apply andb_true_intro. split.
  - apply bool_decide_eq_true_1 in Hd. apply bool_decide_eq_true_2.
    by eapply lookup_weaken.
  - induction IH as [|child rest Hchild _ IHrest]; [done|].
    cbn [forallb] in *. apply andb_prop in Hc as [Hc1 Hc2].
    apply andb_true_intro. split; [|by apply IHrest].
    destruct (node_type child =? 0); [|by apply Hchild].
    apply bool_decide_eq_true_1 in Hc1. apply bool_decide_eq_true_2.
    by eapply lookup_weaken.
Qed.


(** *** A walk over a tree that is there already *)

Lemma sync_children_rerun file remote_path children :
  Forall (fun child => ∀ f r (w : world E),
            mirrored (fs E w) f child = true →
            dl_sync_dir E child f r w
            = (bool_decide (files_of f child = []), w,
               already_exists <$> files_of f child))
         children →
  ∀ st (w : world E),
    forallb
      (fun child =>
         if node_type child =? 0
         then bool_decide (fs E w !! g_file_get_child file (node_name child)
                           = Some G_FILE_TYPE_REGULAR)
         else mirrored (fs E w) (g_file_get_child file (node_name child)) child)
      children = true →
    let files :=
      flat_map
        (fun child =>
           if node_type child =? 0 then [g_file_get_child file (node_name child)]
           else files_of (g_file_get_child file (node_name child)) child)
        children in
    sync_children E (sync_child E) file remote_path children st w
    = (st && bool_decide (files = []), w, already_exists <$> files).
Proof.
  induction 1 as [|child rest Hchild _ IH]; intros st w Hall; cbn zeta.
  - cbn. by destruct st.
  - cbn [forallb] in Hall. apply andb_prop in Hall as [Hc Hall].
    cbn [sync_children flat_map].
    destruct (node_type child =? 0) eqn:Hty.
    + replace (sync_child E child) with (dl_sync_file E child)
        by (unfold sync_child; by rewrite Hty).
      apply bool_decide_eq_true_1 in Hc.
      unfold dl_sync_file, g_file_query_exists, g_file_get_path.
      rewrite bool_decide_eq_true_2 by eauto. cbn [negb].
      rewrite (IH false w Hall). cbn. by rewrite andb_false_r.
    + replace (sync_child E child) with (dl_sync_dir E child)
        by (unfold sync_child; by rewrite Hty).
      rewrite (Hchild _ _ _ Hc), (IH _ w Hall), fmap_app.
      destruct (files_of _ child) as [|p ps]; cbn.
      * done.
      * by rewrite andb_false_r.
Qed.

(** X9: over a tree that is on disk already the walk transfers and
    creates nothing and leaves everything as it is; it reports "File
    already exists" for every file of the tree, in the order of the walk,
    and returns FALSE unless the tree has no file at all. *)
Theorem dl_sync_dir_rerun node :
  ∀ file remote_path (w : world E),
    mirrored (fs E w) file node = true →
    dl_sync_dir E node file remote_path w
    = (bool_decide (files_of file node = []), w,
       already_exists <$> files_of file node).
Proof.
  induction node as [name type children IH] using mega_node_nested_ind.
  intros file remote_path w. rewrite dl_sync_dir_unfold, mirrored_unfold.
  rewrite files_of_unfold. cbn [node_children].
  intros [Hd Hc]%andb_prop. apply bool_decide_eq_true_1 in Hd.
  unfold g_file_query_exists, g_file_query_file_type.
  rewrite Hd, bool_decide_eq_true_2 by eauto. cbn [negb default].
  rewrite bool_decide_eq_true_2 by done. cbn [negb].
  by rewrite (sync_children_rerun file remote_path children IH true w Hc).
Qed.

(** *** The names a walk prints *)

Lemma omap_none {A B} (f : A → option B) (l : list A) :
  Forall (fun x => f x = None) l → omap f l = [].
Proof. induction 1 as [|x l Hx _ IH]; [done|]. cbn. by rewrite Hx. Qed.

Lemma after_xfer_prints x (w : world E) :
  opt_noprogress (g E w) = true →
  omap printed (after_xfer E x w).2 = []
  ∧ omap fetched_line (after_xfer E x w).2 = [].
Proof.
  intros Hq. unfold after_xfer.
  pose proof (deliver_no_progress (x_events x) (g E w) Hq) as Hout.
  destruct (deliver _ _) as [g1 out]. cbn [snd] in *. rewrite Hout.
  split; apply omap_none, Forall_fmap, Forall_true; done.
Qed.

(** A loop that does not wait prints nothing when the progress display
    is off, and its output shows a fetch that succeeded exactly when it
    ends in success after an iteration. *)
Lemma get_loop_prints l r fuel :
  ∀ a sl st (w : world E) ok w' out,
    opt_noprogress (g E w) = true →
    get_loop E fuel l r a sl st w = (ok, w', out) →
    Forall (fun e => is_usleep e = false) out →
    omap printed out = []
    ∧ ((out = [] ∧ ok = st)
       ∨ (out ≠ [] ∧ omap fetched_line out = if ok then [l +:+ nl] else [])).
Proof.
  induction fuel as [|fuel IH]; intros a sl st w ok w' out Hq; cbn [get_loop];
    destruct (negb (a <? 5));
    try (intros [= <- <- <-] _; split; [done|by left]).
  pose proof (after_xfer_prints (mega_session_get E (s E w) (fs E w) l r) w Hq)
    as [Hp Hf].
  pose proof (after_xfer_options (mega_session_get E (s E w) (fs E w) l r) w)
    as (_ & _ & Hn & _).
  destruct (after_xfer E _ w) as [w1 out_cb]. cbn [fst snd] in Hp, Hf, Hn.
  rewrite Hq in Hn.
  assert (Hnotice : ∀ rest,
    Forall (fun e => is_usleep e = false) (retry_notice a sl ++ rest) →
    retry_notice a sl = []).
  { intros rest. unfold retry_notice. destruct (0 <? a); [|done]. cbn.
    intros Hall. apply Forall_cons in Hall as [_ Hall].
    by apply Forall_cons in Hall as [? _]. }
  destruct (x_err _) as [e|].
  - destruct (g_error_matches e _ _).
    + intros [= <- <- <-] Hall. rewrite (Hnotice _ Hall), Hn. cbn [app negb when].
      split; [|right; split; [done|]]; cbn; rewrite omap_app, ?Hp, ?Hf; done.
    + destruct (get_loop E fuel _ _ _ _ _ _) as [[ok2 w2] out2] eqn:Hrec.
      intros [= <- <- <-] Hall. rewrite (Hnotice _ Hall) in Hall |- *.
      rewrite Hn in Hall |- *. cbn [app negb when] in Hall |- *.
      apply Forall_cons in Hall as [_ Hall].
      apply Forall_app in Hall as [_ Hall].
      apply Forall_cons in Hall as [_ Hall].
      destruct (IH _ _ _ _ _ _ _ Hn Hrec Hall) as [Hp2 Hf2].
      split; [|right; split; [done|]]; cbn; rewrite !omap_app, ?Hp, ?Hf; cbn.
      * done.
      * destruct Hf2 as [[-> ->]|[_ Hf2]]; [done|by rewrite Hf2].
  - intros [= <- <- <-] Hall. rewrite (Hnotice _ Hall). cbn [app].
    split; [|right; split; [done|]]; cbn; by rewrite ?Hp, ?Hf.
Qed.

Lemma dl_sync_file_prints node file r (w : world E) ok w' out :
  opt_noprogress (g E w) = true →
  dl_sync_file E node file r w = (ok, w', out) →
  Forall (fun e => is_usleep e = false) out →
  omap printed out
  = if opt_print_names (g E w) then omap fetched_line out else [].
Proof.
  intros Hq. unfold dl_sync_file, g_file_get_path.
  destruct (g_file_query_exists _ _).
  { intros [= <- <- <-] _. by destruct (opt_print_names (g E w)). }
  pose proof (get_loop_options file r 5 0 2000000 true w) as (_ & _ & Hn & Hpn).
  destruct (get_loop E 5 _ _ _ _ _ _) as [[st w1] out1] eqn:Hloop.
  cbn [fst snd] in Hn, Hpn. rewrite Hn, Hpn, Hq. cbn [negb when app].
  assert (Hne : out1 ≠ []) by (eapply get_loop_runs; [|exact Hloop]; lia).
  destruct st; cbn [negb]; intros [= <- <- <-] Hall.
  - apply Forall_app in Hall as [Hall _].
    destruct (get_loop_prints _ _ _ _ _ _ _ _ _ _ Hq Hloop Hall)
      as [Hp [[Hnil _]|[_ Hf]]]; [by destruct Hne|].
    rewrite !omap_app, Hp, Hf. destruct (opt_print_names (g E w)); reflexivity.
  - destruct (get_loop_prints _ _ _ _ _ _ _ _ _ _ Hq Hloop Hall)
      as [Hp [[Hnil _]|[_ Hf]]]; [by destruct Hne|].
    rewrite Hp, Hf. destruct (opt_print_names (g E w)); reflexivity.
Qed.

Lemma sync_children_prints sync file remote_path children :
  Forall (fun child => ∀ f r (w : world E) ok w' out,
            opt_noprogress (g E w) = true →
            sync child f r w = (ok, w', out) →
            Forall (fun e => is_usleep e = false) out →
            same_options (g E w) (g E w')
            ∧ omap printed out
              = if opt_print_names (g E w) then omap fetched_line out else [])
         children →
  ∀ st (w : world E) st' w' out,
    opt_noprogress (g E w) = true →
    sync_children E sync file remote_path children st w = (st', w', out) →
    Forall (fun e => is_usleep e = false) out →
    omap printed out
    = if opt_print_names (g E w) then omap fetched_line out else [].
Proof.
  induction 1 as [|child rest Hchild _ IH]; intros st w st' w' out Hq;
    cbn [sync_children].
  - intros [= <- <- <-] _. by destruct (opt_print_names (g E w)).
  - destruct (sync child _ _ w) as [[ok w1] out1] eqn:Hstep.
    destruct (sync_children E sync _ _ rest _ w1) as [[st2 w2] out2] eqn:Hloop.
    intros [= <- <- <-] [Hall1 Hall2]%Forall_app.
    destruct (Hchild _ _ _ _ _ _ Hq Hstep Hall1) as [(_ & _ & Hn & Hpn) H1].
    rewrite <- Hn in Hq.
    rewrite !omap_app, H1, (IH _ _ _ _ _ Hq Hloop Hall2), Hpn.
    by destruct (opt_print_names (g E w)).
Qed.

(** X10: in a walk without progress display during which no fetch
    had to be tried again, what is printed on standard output is, with
    --print-names, the local path of every file fetched, one on a line
    and in the order of the fetches, and nothing at all without. *)
Theorem walk_prints_names node :
  ∀ file remote_path (w : world E) ok w' out,
    opt_noprogress (g E w) = true →
    dl_sync_dir E node file remote_path w = (ok, w', out) →
    Forall (fun e => is_usleep e = false) out →
    omap printed out
    = if opt_print_names (g E w) then omap fetched_line out else [].
Proof.
  induction node as [name type children IH] using mega_node_nested_ind.
  intros file remote_path w ok w' out Hq. rewrite dl_sync_dir_unfold.
  cbn [node_children].
  assert (Hloop : ∀ st (w0 : world E) st' w0' out0,
    opt_noprogress (g E w0) = true →
    sync_children E (sync_child E) file remote_path children st w0
    = (st', w0', out0) →
    Forall (fun e => is_usleep e = false) out0 →
    omap printed out0
    = if opt_print_names (g E w0) then omap fetched_line out0 else []).
  { apply sync_children_prints. eapply Forall_impl; [exact IH|].
    intros child Hchild f r w0 ok0 w0' out0 Hq0 Hstep Hall. unfold sync_child in *.
    destruct (node_type child =? 0).
    - split; [|by eapply dl_sync_file_prints].
      pose proof (dl_sync_file_options child f r w0) as H. by rewrite Hstep in H.
    - split; [|by eapply Hchild].
      pose proof (dl_sync_dir_options child f r w0) as H. by rewrite Hstep in H. }
  unfold g_file_make_directory. rewrite Hq. cbn [negb when app].
  destruct (negb (g_file_query_exists _ _)).
  - destruct (fs E w !! file).
    { intros [= <- <- <-] _. by destruct (opt_print_names (g E w)). }
    destruct (make_directory_error E _ _).
    { intros [= <- <- <-] _. by destruct (opt_print_names (g E w)). }
    destruct (sync_children E _ _ _ _ _ _) as [[st2 w2] out2] eqn:Hrun.
    intros [= <- <- <-] [_ Hall]%Forall_cons.
    exact (Hloop _ (set_fs E _ w) _ _ _ Hq Hrun Hall).
  - destruct (negb _).
    { intros [= <- <- <-] _. by destruct (opt_print_names (g E w)). }
    by apply Hloop.
Qed.

Section Tree.
Hypothesis Hframe : get_frame E.
Hypothesis Hcreates : get_creates E.

(** What the step of a child leaves when it succeeds. *)
Lemma sync_children_complete file remote_path children :
  Forall (fun child => ∀ f r (w : world E) w' out,
            dl_sync_dir E child f r w = (true, w', out) →
            mirrored (fs E w') f child = true)
         children →
  ∀ st (w : world E) w' out,
    sync_children E (sync_child E) file remote_path children st w
    = (true, w', out) →
    forallb
      (fun child =>
         if node_type child =? 0
         then bool_decide (fs E w' !! g_file_get_child file (node_name child)
                           = Some G_FILE_TYPE_REGULAR)
         else mirrored (fs E w') (g_file_get_child file (node_name child)) child)
      children = true.
Proof.
  induction 1 as [|child rest Hchild Hrest IH]; intros st w w' out; [done|].
  cbn [sync_children forallb].
  destruct (sync_child E child _ _ w) as [[ok w1] out1] eqn:Hstep.
  destruct (sync_children E _ _ _ rest _ w1) as [[st2 w2] out2] eqn:Hloop.
  intros [= -> <- <-].
  assert (Hinv : walk_inv E w1 w2 out2).
  { eapply (sync_children_inv E); [|exact Hloop].
    apply Forall_forall. intros c _ f r w0 ok0 w0' out0. unfold sync_child.
    destruct (node_type c =? 0).
    - intros Hf. by apply (dl_sync_file_inv E Hframe) in Hf as [? _].
    - apply (dl_sync_dir_inv E Hframe). }
  destruct Hinv as (Hsub & _ & _).
  assert (ok = true) as ->.
  { destruct ok; [done|]. cbn [negb] in Hloop.
    destruct (sync_children_steps E (sync_child E) file remote_path rest false w1)
      as [Heq _]. rewrite Heq in Hloop. by injection Hloop. }
  apply andb_true_intro. split; [|by eapply IH].
  unfold sync_child in Hstep. destruct (node_type child =? 0).
  - apply (dl_sync_file_inv E Hframe) in Hstep as [(_ & _ & Hget) Hin].
    apply bool_decide_eq_true_2. eapply lookup_weaken; [|exact Hsub].
    eapply Hget; [done|]. by apply Hin.
  - eapply mirrored_mono; [exact Hsub|]. by eapply Hchild.
Qed.

(** When the walk returns TRUE the whole tree is on disk. *)
Lemma dl_sync_dir_mirrors node :
  ∀ file remote_path (w : world E) w' out,
    dl_sync_dir E node file remote_path w = (true, w', out) →
    mirrored (fs E w') file node = true.
Proof.
  induction node as [name type children IH] using mega_node_nested_ind.
  intros file remote_path w w' out. rewrite dl_sync_dir_unfold, mirrored_unfold.
  cbn [node_children].
  assert (Hch : Forall (fun child => ∀ f r (w : world E) ok w' out,
            sync_child E child f r w = (ok, w', out) → walk_inv E w w' out)
            children).
  { apply Forall_forall. intros c _ f r w0 ok0 w0' out0. unfold sync_child.
    destruct (node_type c =? 0).
    - intros Hf. by apply (dl_sync_file_inv E Hframe) in Hf as [? _].
    - apply (dl_sync_dir_inv E Hframe). }
  unfold g_file_query_exists, g_file_query_file_type, g_file_make_directory,
    g_file_get_path.
  destruct (fs E w !! file) as [t|] eqn:Hl.
  - rewrite bool_decide_eq_true_2 by eauto. cbn [negb default].
    case_bool_decide as Ht; cbn [negb]; [|done]. cbv [id] in Ht. subst t.
    intros Hloop.
    pose proof (sync_children_inv E _ _ _ _ Hch _ _ _ _ _ Hloop)
      as (Hsub & _).
    apply andb_true_intro. split.
    + apply bool_decide_eq_true_2. by eapply lookup_weaken.
    + by eapply sync_children_complete.
  - rewrite bool_decide_eq_false_2 by (by intros [? ?]). cbn [negb].
    destruct (make_directory_error E (fs E w) file) as [err|]; [done|].
    destruct (sync_children E _ _ _ _ _ _) as [[st2 w2] out2] eqn:Hloop.
    intros [= -> <- <-].
    pose proof (sync_children_inv E _ _ _ _ Hch _ _ _ _ _ Hloop)
      as (Hsub & _).
    apply andb_true_intro. split.
    + apply bool_decide_eq_true_2. eapply lookup_weaken; [|exact Hsub].
      cbn [set_fs fs]. apply lookup_insert_eq.
    + by eapply sync_children_complete.
Qed.

Lemma tree_path_child node child file p :
  child ∈ node_children node →
  tree_path child (g_file_get_child file (node_name child)) p →
  tree_path node file p.
Proof.
  intros Hin (names & n & Hd & ->). exists (node_name child :: names), n.
  split; [by eapply descends_child|done].
Qed.

Lemma sync_children_frame node file remote_path children p :
  (∀ child, child ∈ children → child ∈ node_children node) →
  Forall (fun child => ∀ f r (w : world E) ok w' out,
            dl_sync_dir E child f r w = (ok, w', out) →
            fs E w' !! p = fs E w !! p ∨ tree_path child f p)
         children →
  ∀ st (w : world E) st' w' out,
    sync_children E (sync_child E) file remote_path children st w
    = (st', w', out) →
    fs E w' !! p = fs E w !! p ∨ tree_path node file p.
Proof.
  intros Hsub Hall. revert Hsub.
  induction Hall as [|child rest Hchild _ IH]; intros Hsub st w st' w' out;
    cbn [sync_children].
  - intros [= _ <- _]. by left.
  - destruct (sync_child E child _ _ w) as [[ok w1] out1] eqn:Hstep.
    destruct (sync_children E _ _ _ rest _ w1) as [[st2 w2] out2] eqn:Hloop.
    intros [= _ <- _].
    assert (Hin : child ∈ node_children node) by (apply Hsub; by left).
    assert (H1 : fs E w1 !! p = fs E w !! p
                 ∨ tree_path child (g_file_get_child file (node_name child)) p).
    { unfold sync_child in Hstep. destruct (node_type child =? 0).
      - destruct (decide (p = g_file_get_child file (node_name child)))
          as [->|Hne].
        + right. exists [], child. split; [constructor|done].
        + left. revert Hstep.
          unfold dl_sync_file, g_file_get_path.
          destruct (g_file_query_exists _ _); [by intros [= _ <- _]|].
          destruct (get_loop E 5 _ _ _ _ _ _) as [[st0 w0] out0] eqn:Hget.
          apply (get_loop_fs E Hframe) in Hget as [Hfs _].
          destruct st0; cbn [negb]; intros [= _ <- _]; by apply Hfs.
      - by eapply Hchild. }
    destruct H1 as [H1|H1]; [|right; by eapply tree_path_child].
    rewrite <- H1. eapply IH; [|exact Hloop].
    intros c Hc. apply Hsub. by right.
Qed.

(** X11: a walk leaves the local files alone except at the paths of
    the tree: whatever local path has changed or appeared when the walk
    returns is the path of a node of the tree, made of the directory the
    walk was given and of the names that lead to the node (a fetch
    touching no local path but its target). *)
Theorem dl_sync_dir_frame node :
  ∀ file remote_path (w : world E) ok w' out p,
    dl_sync_dir E node file remote_path w = (ok, w', out) →
    fs E w' !! p ≠ fs E w !! p →
    tree_path node file p.
Proof.
  assert (H : ∀ node p file remote_path (w : world E) ok w' out,
    dl_sync_dir E node file remote_path w = (ok, w', out) →
    fs E w' !! p = fs E w !! p ∨ tree_path node file p).
  { clear node. intros node p.
    induction node as [name type children IH] using mega_node_nested_ind.
    intros file remote_path w ok w' out. rewrite dl_sync_dir_unfold.
    set (node := MegaNode name type children).
    assert (Hloop : ∀ st (w0 : world E) st' w0' out0,
      sync_children E (sync_child E) file remote_path children st w0
      = (st', w0', out0) →
      fs E w0' !! p = fs E w0 !! p ∨ tree_path node file p).
    { by apply (sync_children_frame node). }
    cbn [node_children]. unfold g_file_make_directory.
    destruct (negb (g_file_query_exists _ _)).
    - destruct (fs E w !! file); [intros [= _ <- _]; by left|].
      destruct (make_directory_error E _ _); [intros [= _ <- _]; by left|].
      destruct (sync_children E _ _ _ _ _ _) as [[st2 w2] out2] eqn:Hrun.
      intros [= _ <- _].
      destruct (decide (p = file)) as [->|Hne].
      + right. exists [], node. split; [constructor|done].
      + destruct (Hloop _ _ _ _ _ Hrun) as [Heq|?]; [left|by right].
        rewrite Heq. cbn [set_fs fs]. by apply lookup_insert_ne.
    - destruct (negb _); [intros [= _ <- _]; by left|]. apply Hloop. }
  intros file remote_path w ok w' out p Hrun Hne.
  by destruct (H node p file remote_path w ok w' out Hrun).
Qed.

(** X12: a folder link leaves the exit status as it was only when the
    whole folder is on disk: the folder was opened and has one root, and
    under the destination there is a directory for every directory of
    the tree and a regular file for every file of it, each at the path
    made of the names that lead to it. In every other case the status
    becomes 1. (A fetch touches no local path but its target and leaves a
    regular file there when it succeeds.) *)
Theorem folder_link_complete link h k st (w : world E) st' w' out :
  dl_folder E link h k st w = (st', w', out) →
  st' = 1
  ∨ (st' = st
     ∧ ∃ s1 root,
         mega_session_open_exp_folder E (s E w) h k = (s1, None)
         ∧ mega_session_ls E s1 "/" false = [root]
         ∧ mirrored (fs E w') (opt_path (g E w)) root = true).
Proof.
  unfold dl_folder.
  destruct (mega_session_open_exp_folder E (s E w) h k) as [s1 [err|]] eqn:Hopen.
  { intros [= <- _ _]. by left. }
  cbn [g fs s].
  destruct (mega_session_ls E s1 "/" false) as [|root [|? ?]] eqn:Hls;
    try (intros [= <- _ _]; by left).
  destruct (bool_decide _); [|intros [= <- _ _]; by left].
  destruct (dl_sync_dir E root _ _ _) as [[ok w2] out2] eqn:Hwalk.
  intros [= <- <- <-]. destruct ok; cbn [negb]; [|by left].
  right. split; [done|]. exists s1, root. split; [done|]. split; [done|].
  by apply dl_sync_dir_mirrors in Hwalk.
Qed.
End Tree.

(** *** Whole runs *)

Lemma run_event_mono links links' g0 g1 e :
  (∀ av_i, av_i ∈ links → av_i ∈ links') → dl_path g1 = dl_path g0 →
  run_event E links g0 e → run_event E links' g1 e.
Proof.
  intros Hsub Hp. destruct e; cbn [run_event]; try done.
  - intros [-> (av_i & Hin & Hc)]. split; [done|]. exists av_i. auto.
  - intros (av_i & Hin & Hc). exists av_i. auto.
Qed.

Lemma same_options_dl_path g0 g1 : same_options g0 g1 → dl_path g1 = dl_path g0.
Proof. intros (Hp & Hs & _). unfold dl_path. by rewrite Hp, Hs. Qed.

Lemma dl_folder_events links link h k st (w : world E) :
  (∃ av_i, av_i ∈ links
     ∧ classify (tool_convert_filename E av_i false) = FolderRef h k) →
  Forall (run_event E links (g E w)) (dl_folder E link h k st w).2.
Proof. intros Hav. by apply dl_folder_all. Qed.

Lemma process_links_events links :
  ∀ st (w : world E),
    Forall (run_event E links (g E w)) (process_links E links st w).2.
Proof.
  induction links as [|av_i rest IH]; intros st w; cbn [process_links];
    [constructor|].
  assert (Hrest : ∀ st1 (w1 : world E),
    same_options (g E w) (g E w1) →
    Forall (run_event E (av_i :: rest) (g E w)) (process_links E rest st1 w1).2).
  { intros st1 w1 Ho. eapply Forall_impl; [apply IH|]. intros e.
    apply run_event_mono; [by right|]. symmetry. by apply same_options_dl_path. }
  destruct (classify _) as [h k|h k|] eqn:Hc.
  - pose proof (dl_loop_all (run_event E (av_i :: rest) (g E w))
                  (fun _ => I) (fun _ _ => I) (fun _ => I) (fun _ => I)
                  (fun _ _ => I) (tool_convert_filename E av_i false) h k 5
                  0 2000000 st w) as H1.
    pose proof (dl_loop_options (tool_convert_filename E av_i false) h k 5
                  0 2000000 st w) as Ho.
    destruct (dl_loop E 5 _ h k _ _ _ w) as [[st1 w1] out1].
    specialize (Hrest st1 w1 Ho).
    destruct (process_links E rest st1 w1) as [[st2 w2] out2].
    cbn [fst snd] in *. apply Forall_app. split; [|done].
    apply H1. intros err. split; [done|]. exists av_i. split; [by left|done].
  - destruct (opt_stream (g E w)); [cbn [snd]; all_events|].
    pose proof (dl_folder_events (av_i :: rest)
                  (tool_convert_filename E av_i false) h k st w) as H1.
    pose proof (dl_folder_options (tool_convert_filename E av_i false) h k
                  st w) as Ho.
    destruct (dl_folder E _ h k st w) as [[st1 w1] out1].
    specialize (Hrest st1 w1 Ho).
    destruct (process_links E rest st1 w1) as [[st2 w2] out2].
    cbn [fst snd] in *. apply Forall_app. split; [|done].
    apply H1. exists av_i. split; [by left|done].
  - specialize (Hrest st w (same_options_refl _)).
    destruct (process_links E rest st w) as [[st2 w2] out2].
    cbn [snd] in *. all_events.
Qed.

Lemma main_eq c fs0 :
  main E c fs0
  = if bool_decide (arg_links c = []) then
      Outcome 1 fs0 (startup c)
        [PrintErr ("ERROR: No links specified for download!" +:+ nl); Fini false]
    else if streaming c && negb (bool_decide (length (arg_links c) = 1%nat)) then
      Outcome 1 fs0 (startup c)
        [PrintErr ("ERROR: Can't stream from multiple files!" +:+ nl); Fini false]
    else
      let r := process_links E (arg_links c) 0
                 {| g := startup c; fs := fs0; s := tool_start_session E 0 |} in
      Outcome r.1.1 (fs E r.1.2) (g E r.1.2)
        ([StartSession 0; WatchStatus] ++ r.2 ++ [Fini true]).
Proof.
  unfold main. cbn zeta.
  assert (Hg : (if String.eqb (opt_path (tool_init c)) "-"
                then {| opt_path := opt_path (tool_init c); opt_stream := true;
                        opt_noprogress := true;
                        opt_print_names := opt_print_names (tool_init c);
                        cur_file := cur_file (tool_init c) |}
                else tool_init c) = startup c).
  { unfold startup, streaming, tool_init. cbn [opt_path opt_print_names cur_file].
    destruct (String.eqb _ "-"); [by rewrite orb_true_r|by rewrite orb_false_r]. }
  rewrite Hg. cbn [opt_stream startup].
  assert (Hlt : (Z.of_nat (1 + length (arg_links c)) <? 2)
                = bool_decide (arg_links c = [])).
  { destruct (arg_links c); cbn [length]; [done|].
    rewrite bool_decide_eq_false_2 by done. apply Z.ltb_ge. lia. }
  assert (Heq : (Z.of_nat (1 + length (arg_links c)) =? 2)
                = bool_decide (length (arg_links c) = 1%nat)).
  { destruct (decide (length (arg_links c) = 1%nat)) as [Hl|Hl].
    - by rewrite Hl, bool_decide_eq_true_2.
    - rewrite bool_decide_eq_false_2 by done. apply Z.eqb_neq. lia. }
  rewrite Hlt, Heq. fold (startup c).
  destruct (bool_decide (arg_links c = [])); [done|].
  destruct (streaming c && negb _); [done|].
  by destruct (process_links E _ _ _) as [[st w'] out].
Qed.

Lemma main_usage c fs0 :
  usage_error c = true →
  exit_status (main E c fs0) = 1 ∧ final_fs (main E c fs0) = fs0
  ∧ final_globals (main E c fs0) = startup c
  ∧ ∃ text, output (main E c fs0) = [PrintErr text; Fini false].
Proof.
  rewrite main_eq. unfold usage_error.
  destruct (bool_decide (arg_links c = [])); [by eauto|]. cbn [orb].
  intros ->. by eauto.
Qed.

Lemma main_runs c fs0 :
  usage_error c = false →
  let r := process_links E (arg_links c) 0
             {| g := startup c; fs := fs0; s := tool_start_session E 0 |} in
  main E c fs0
  = Outcome r.1.1 (fs E r.1.2) (g E r.1.2)
      ([StartSession 0; WatchStatus] ++ r.2 ++ [Fini true]).
Proof.
  rewrite main_eq. unfold usage_error.
  destruct (bool_decide (arg_links c = [])); [done|]. cbn [orb].
  by intros ->.
Qed.

(** X13: every run ends with [tool_fini], called once and last. A
    session is started at most once, before anything else, and exactly
    when there is an argument and the data of no more than one is asked on
    standard output; otherwise the run ends with status 1 after one line
    on standard error, with no local file touched. *)
Theorem session_bracket c fs0 :
  let o := main E c fs0 in
  if usage_error c
  then exit_status o = 1 ∧ final_fs o = fs0
       ∧ ∃ text, output o = [PrintErr text; Fini false]
  else ∃ mid,
         output o = [StartSession 0; WatchStatus] ++ mid ++ [Fini true]
         ∧ Forall (fun e => is_start e = false ∧ is_fini e = false) mid.
Proof.
  cbn zeta. destruct (usage_error c) eqn:Hu.
  { by destruct (main_usage c fs0 Hu) as (? & ? & _ & ?). }
  rewrite main_runs by done. cbn zeta. cbn [output].
  eexists. split; [done|].
  eapply Forall_impl; [apply process_links_events|].
  intros e. by destruct e.
Qed.


(** X15: the options stay as the command line set them, with stream
    mode and no progress display when the path is [-]; and every download
    of a file link is sent to the directory of --path, the current
    directory by default, or, in stream mode, to no path at all. *)
Theorem download_destination c fs0 :
  let o := main E c fs0 in
  let path := default "."%string (arg_path c) in
  opt_path (final_globals o) = path
  ∧ opt_stream (final_globals o) = streaming c
  ∧ opt_noprogress (final_globals o) = arg_no_progress c || streaming c
  ∧ opt_print_names (final_globals o) = arg_print_names c
  ∧ ∀ handle key dest err,
      SessionDl handle key dest err ∈ output o →
      dest = if streaming c then None else Some path.
Proof.
  cbn zeta. destruct (usage_error c) eqn:Hu.
  - destruct (main_usage c fs0 Hu) as (_ & _ & -> & text & ->).
    split_and!; try done. intros h k dest err Hin. find_event.
  - rewrite main_runs by done. cbn zeta. cbn [output final_globals].
    set (w := {| g := _; fs := fs0; s := _ |}).
    destruct (process_links_options (arg_links c) 0 w) as (Hp & Hs & Hn & Hpn).
    split_and!; try done.
    intros h k dest err Hin.
    pose proof (process_links_events (arg_links c) 0 w) as Hev.
    rewrite Forall_forall in Hev. find_event.
    by destruct (Hev _ Hin) as [-> _].
Qed.

(** *** No failure without a report *)

(** Looks for the report in an output that is written out. *)
Ltac find_report :=
  unfold reported in *;
  match goal with
  | H : Exists _ ?o |- Exists _ ?o => exact H
  | |- Exists _ (_ :: _) =>
      first [ apply Exists_cons_hd; reflexivity
            | apply Exists_cons_tl; find_report ]
  | |- Exists _ (_ ++ _) =>
      apply Exists_app; first [ left; find_report | right; find_report ]
  end.

Lemma get_loop_failure l r fuel :
  ∀ a sl st (w : world E),
    (get_loop E fuel l r a sl st w).1.1 = false →
    st = false ∨ reported (get_loop E fuel l r a sl st w).2.
Proof.
  induction fuel as [|fuel IH]; intros a sl st w; cbn [get_loop];
    destruct (negb (a <? 5)); try (by left).
  destruct (after_xfer E _ w) as [w1 out_cb].
  destruct (x_err _) as [e|]; [|done].
  destruct (g_error_matches e _ _).
  - intros _. right. cbn [snd]. find_report.
  - destruct (get_loop E fuel _ _ _ _ _ _) as [[ok2 w2] out2].
    intros _. right. cbn [snd]. find_report.
Qed.

Lemma dl_sync_file_failure node file r (w : world E) :
  (dl_sync_file E node file r w).1.1 = false →
  reported (dl_sync_file E node file r w).2.
Proof.
  unfold dl_sync_file.
  destruct (g_file_query_exists _ _); [intros _; cbn [snd]; find_report|].
  pose proof (get_loop_failure (g_file_get_path file) r 5 0 2000000 true w) as H.
  destruct (get_loop E 5 _ _ _ _ _ _) as [[st w1] out1]. cbn [fst snd] in H.
  destruct st; cbn [negb fst snd]; [done|]. intros _.
  destruct (H eq_refl) as [?|?]; [done|]. find_report.
Qed.

Lemma sync_children_failure sync file remote_path children :
  Forall (fun child => ∀ f r (w : world E),
            (sync child f r w).1.1 = false → reported (sync child f r w).2)
         children →
  ∀ st (w : world E),
    (sync_children E sync file remote_path children st w).1.1 = false →
    st = false ∨ reported (sync_children E sync file remote_path children st w).2.
Proof.
  induction 1 as [|child rest Hchild _ IH]; intros st w; cbn [sync_children];
    [by left|].
  specialize (Hchild (g_file_get_child file (node_name child))
                (remote_path +:+ "/" +:+ node_name child) w).
  destruct (sync child _ _ w) as [[ok w1] out1].
  specialize (IH (if negb ok then false else st) w1).
  destruct (sync_children E sync _ _ rest _ w1) as [[st2 w2] out2].
  cbn [fst snd] in *. intros ->.
  destruct (IH eq_refl) as [Hst|?]; [|right; find_report].
  destruct ok; cbn [negb] in Hst; [by left|].
  right. specialize (Hchild eq_refl). find_report.
Qed.

Lemma dl_sync_dir_failure node :
  ∀ file r (w : world E),
    (dl_sync_dir E node file r w).1.1 = false →
    reported (dl_sync_dir E node file r w).2.
Proof.
  induction node as [name type children IH] using mega_node_nested_ind.
  intros file r w. rewrite dl_sync_dir_unfold. cbn [node_children].
  assert (Hloop : ∀ (w0 : world E),
    (sync_children E (sync_child E) file r children true w0).1.1 = false →
    reported (sync_children E (sync_child E) file r children true w0).2).
  { intros w0 Hf.
    destruct (sync_children_failure (sync_child E) file r children) with true w0
      as [?|?]; try done.
    eapply Forall_impl; [exact IH|]. intros child Hchild f r0 w1.
    unfold sync_child.
    destruct (node_type child =? 0); [apply dl_sync_file_failure|apply Hchild]. }
  destruct (negb (g_file_query_exists _ _)).
  - destruct (g_file_make_directory E _ _) as [fs'|err].
    + specialize (Hloop (set_fs E fs' w)).
      destruct (sync_children E _ _ _ _ _ _) as [[st2 w2] out2].
      cbn [fst snd] in *. intros Hf. specialize (Hloop Hf). find_report.
    + intros _. cbn [snd]. find_report.
  - destruct (negb _); [intros _; cbn [snd]; find_report|]. apply Hloop.
Qed.

Lemma dl_loop_status link h k fuel :
  ∀ a sl st (w : world E),
    let r := dl_loop E fuel link h k a sl st w in
    r.1.1 = st ∨ r.1.1 = 0 ∨ (r.1.1 = 1 ∧ reported r.2).
Proof.
  induction fuel as [|fuel IH]; intros a sl st w; cbn zeta; cbn [dl_loop];
    destruct (negb (a <? 5)); try (by left).
  destruct (after_xfer E _ w) as [w1 out_cb].
  destruct (x_err _) as [e|]; [|right; by left].
  destruct (g_error_matches e _ _).
  - right. right. split; [done|]. cbn [snd]. find_report.
  - specialize (IH (gint (a + 1)) (next_sleep a sl) 1 w1). cbn zeta in IH.
    destruct (dl_loop E fuel _ _ _ _ _ _ _) as [[st2 w2] out2].
    cbn [fst snd] in *. right.
    destruct IH as [->|[->|[-> _]]]; [right|by left|right];
      (split; [done|]); find_report.
Qed.

Lemma dl_folder_status link h k st (w : world E) :
  let r := dl_folder E link h k st w in
  r.1.1 = st ∨ (r.1.1 = 1 ∧ reported r.2).
Proof.
  cbn zeta. unfold dl_folder.
  destruct (mega_session_open_exp_folder E (s E w) h k) as [s1 [err|]].
  - right. split; [done|]. cbn [snd]. find_report.
  - cbn [g fs s].
    destruct (mega_session_ls E s1 "/" false) as [|root [|? ?]];
      try (right; split; [done|]; cbn [snd]; find_report).
    destruct (bool_decide _);
      [|right; split; [done|]; cbn [snd]; find_report].
    pose proof (dl_sync_dir_failure root (g_file_new_for_path (opt_path (g E w)))
                  (mega_node_get_path_dup E root)
                  {| g := g E w; fs := fs E w; s := s1 |}) as H.
    destruct (dl_sync_dir E root _ _ _) as [[ok w2] out]. cbn [fst snd] in *.
    destruct ok; cbn [negb]; [by left|].
    right. split; [done|]. specialize (H eq_refl). find_report.
Qed.

Lemma process_links_status links :
  ∀ st (w : world E),
    let r := process_links E links st w in
    r.1.1 = st ∨ r.1.1 = 0 ∨ (r.1.1 = 1 ∧ reported r.2).
Proof.
  induction links as [|av_i rest IH]; intros st w; cbn zeta;
    cbn [process_links]; [by left|].
  destruct (classify _) as [h k|h k|].
  - pose proof (dl_loop_status (tool_convert_filename E av_i false) h k 5
                  0 2000000 st w) as H1. cbn zeta in H1.
    destruct (dl_loop E 5 _ h k _ _ _ w) as [[st1 w1] out1].
    specialize (IH st1 w1). cbn zeta in IH.
    destruct (process_links E rest st1 w1) as [[st2 w2] out2].
    cbn [fst snd] in *.
    destruct IH as [->|[->|[-> ?]]];
      [|right; by left|right; right; split; [done|find_report]].
    destruct H1 as [->|[->|[-> ?]]];
      [by left|right; by left|right; right; split; [done|find_report]].
  - destruct (opt_stream (g E w)).
    { right. right. split; [done|]. cbn [snd]. find_report. }
    pose proof (dl_folder_status (tool_convert_filename E av_i false) h k st w)
      as H1. cbn zeta in H1.
    destruct (dl_folder E _ h k st w) as [[st1 w1] out1].
    specialize (IH st1 w1). cbn zeta in IH.
    destruct (process_links E rest st1 w1) as [[st2 w2] out2].
    cbn [fst snd] in *.
    destruct IH as [->|[->|[-> ?]]];
      [|right; by left|right; right; split; [done|find_report]].
    destruct H1 as [->|[-> ?]];
      [by left|right; right; split; [done|find_report]].
  - specialize (IH st w). cbn zeta in IH.
    destruct (process_links E rest st w) as [[st2 w2] out2].
    cbn [fst snd] in *.
    destruct IH as [->|[->|[-> ?]]];
      [by left|right; by left|right; right; split; [done|find_report]].
Qed.

(** X16: the exit status is 0 or 1, and it is 1 only after a line
    that begins with "ERROR:" has been written to standard error: for a
    failed download, a failed step of a walk, a folder that cannot be
    opened or saved, or a command line that is turned down. *)
Theorem exit_status_reported c fs0 :
  let o := main E c fs0 in
  exit_status o = 0 ∨ (exit_status o = 1 ∧ reported (output o)).
Proof.
  cbn zeta. rewrite main_eq.
  destruct (bool_decide (arg_links c = [])).
  { right. split; [done|]. cbn [output]. find_report. }
  destruct (streaming c && negb _).
  { right. split; [done|]. cbn [output]. find_report. }
  cbn zeta. cbn [exit_status output].
  destruct (process_links_status (arg_links c) 0
              {| g := startup c; fs := fs0; s := tool_start_session E 0 |})
    as [->|[->|[-> Hrep]]]; [by left|by left|].
  right. split; [done|]. find_report.
Qed.

(** *** What is not a link *)

Lemma filter_all {A} (P : A → Prop) `{∀ x, Decision (P x)} (l : list A) :
  Forall P l → filter P l = l.
Proof.
  induction 1 as [|x l Hx _ IH]; [done|].
  by rewrite filter_cons_True, IH.
Qed.

Lemma error_is_no_warning text :
  is_error_report (PrintErr text) = true → is_skip_warning (PrintErr text) = false.
Proof.
  destruct text as [|c text]; [done|].
  destruct (decide (c = "E"%char)) as [->|Hc]; [done|].
  cbn [is_error_report String.prefix].
  by destruct (ascii_dec "E" c) as [<-|].
Qed.

(** X17: an argument that is no link costs a warning on standard
    error and nothing else: apart from these warnings the loop over the
    arguments runs as it does over the links among them alone, with the
    same calls and output in the same order, the same local files and the
    same exit status. *)
Theorem invalid_links_skipped links :
  ∀ st (w : world E),
    let r := process_links E links st w in
    process_links E (filter (fun av_i => is_link E av_i = true) links) st w
    = (r.1.1, r.1.2, filter (fun e => is_skip_warning e = false) r.2).
Proof.
  set (P := fun e : event => is_skip_warning e = false).
  assert (H1 : ∀ text, P (Print text)) by done.
  assert (H2 : ∀ text, is_error_report (PrintErr text) = true → P (PrintErr text))
    by apply error_is_no_warning.
  assert (H3 : ∀ us, P (Usleep us)) by done.
  assert (H4 : ∀ buf, P (Fwrite buf)) by done.
  assert (H5 : ∀ name d, P (ShowProgress name d)) by done.
  induction links as [|av_i rest IH]; intros st w; cbn zeta; [done|].
  cbn [process_links].
  destruct (classify _) as [h k|h k|] eqn:Hc.
  - assert (Hl : is_link E av_i = true) by (unfold is_link; by rewrite Hc).
    rewrite filter_cons_True by done. cbn [process_links]. rewrite Hc.
    pose proof (dl_loop_all P H1 H2 H3 H4 H5
                  (tool_convert_filename E av_i false) h k 5 0 2000000 st w
                  (fun _ => eq_refl)) as Hout.
    destruct (dl_loop E 5 _ h k _ _ _ w) as [[st1 w1] out1].
    specialize (IH st1 w1). cbn zeta in IH. rewrite IH.
    destruct (process_links E rest st1 w1) as [[st2 w2] out2].
    cbn [fst snd] in *. by rewrite filter_app, (filter_all P out1).
  - assert (Hl : is_link E av_i = true) by (unfold is_link; by rewrite Hc).
    rewrite filter_cons_True by done. cbn [process_links]. rewrite Hc.
    destruct (opt_stream (g E w)); [done|].
    pose proof (dl_folder_all P H1 H2 H3 H4 H5
                  (tool_convert_filename E av_i false) h k st w
                  (fun _ _ _ => eq_refl) (fun _ _ => eq_refl)
                  (fun _ => eq_refl) eq_refl (fun _ => eq_refl)) as Hout.
    destruct (dl_folder E _ h k st w) as [[st1 w1] out1].
    specialize (IH st1 w1). cbn zeta in IH. rewrite IH.
    destruct (process_links E rest st1 w1) as [[st2 w2] out2].
    cbn [fst snd] in *. by rewrite filter_app, (filter_all P out1).
  - assert (Hl : is_link E av_i ≠ true) by (unfold is_link; by rewrite Hc).
    rewrite filter_cons_False by done.
    specialize (IH st w). cbn zeta in IH. rewrite IH.
    destruct (process_links E rest st w) as [[st2 w2] out2].
    cbn [fst snd app]. rewrite filter_cons_False; [done|].
    intros Hw. by change (true = false) in Hw.
Qed.

Lemma process_links_invalid links :
  Forall (fun av_i => is_link E av_i = false) links →
  ∀ st (w : world E),
    process_links E links st w
    = (st, w, (fun av_i => skip_warning (tool_convert_filename E av_i false))
              <$> links).
Proof.
  induction 1 as [|av_i rest Hav _ IH]; intros st w; [done|].
  cbn [process_links]. unfold is_link in Hav.
  destruct (classify _); try done. by rewrite IH.
Qed.

(** X18: a command line of arguments none of which is a link is no
    error: a session is started, every argument is answered by a warning
    on standard error, no local file is touched and the exit status
    is 0. *)
Theorem only_invalid_links c fs0 :
  arg_links c ≠ [] →
  (streaming c = true → length (arg_links c) = 1%nat) →
  Forall (fun av_i => is_link E av_i = false) (arg_links c) →
  let o := main E c fs0 in
  exit_status o = 0 ∧ final_fs o = fs0
  ∧ output o
    = [StartSession 0; WatchStatus]
      ++ ((fun av_i => skip_warning (tool_convert_filename E av_i false))
          <$> arg_links c)
      ++ [Fini true].
Proof.
  intros Hne Hone Hall. cbn zeta. rewrite main_eq.
  rewrite bool_decide_eq_false_2 by done.
  destruct (streaming c); cbn [andb].
  - rewrite bool_decide_eq_true_2 by auto. cbn [negb]. cbn zeta.
    by rewrite process_links_invalid.
  - cbn zeta. by rewrite process_links_invalid.
Qed.

(** *** The status after a link *)

Lemma dl_loop_forgets link h k fuel a sl st st' (w : world E) :
  a < 5 → fuel ≠ 0%nat →
  dl_loop E fuel link h k a sl st w = dl_loop E fuel link h k a sl st' w.
Proof.
  intros Ha Hfuel. destruct fuel as [|fuel]; [done|]. cbn [dl_loop].
  by rewrite (proj2 (Z.ltb_lt a 5)) by done.
Qed.

Lemma process_links_app pre post :
  ∀ st (w : world E),
    opt_stream (g E w) = false →
    process_links E (pre ++ post) st w
    = (let '(st1, w1, out1) := process_links E pre st w in
       let '(st2, w2, out2) := process_links E post st1 w1 in
       (st2, w2, out1 ++ out2)).
Proof.
  induction pre as [|av_i pre IH]; intros st w Hs; cbn [app process_links].
  - by destruct (process_links E post st w) as [[st2 w2] out2].
  - destruct (classify _) as [h k|h k|].
    + pose proof (dl_loop_options (tool_convert_filename E av_i false) h k 5
                    0 2000000 st w) as (_ & Ho & _).
      destruct (dl_loop E 5 _ h k _ _ _ w) as [[st1 w1] out1].
      cbn [fst snd] in Ho. rewrite IH by congruence.
      destruct (process_links E pre st1 w1) as [[st2 w2] out2].
      destruct (process_links E post st2 w2) as [[st3 w3] out3].
      by rewrite app_assoc.
    + rewrite Hs.
      pose proof (dl_folder_options (tool_convert_filename E av_i false) h k
                    st w) as (_ & Ho & _).
      destruct (dl_folder E _ h k st w) as [[st1 w1] out1].
      cbn [fst snd] in Ho. rewrite IH by congruence.
      destruct (process_links E pre st1 w1) as [[st2 w2] out2].
      destruct (process_links E post st2 w2) as [[st3 w3] out3].
      by rewrite app_assoc.
    + rewrite IH by done.
      destruct (process_links E pre st w) as [[st2 w2] out2].
      by destruct (process_links E post st2 w2) as [[st3 w3] out3].
Qed.

Lemma dl_loop_outcome link h k st (w : world E) :
  let r := dl_loop E 5 link h k 0 2000000 st w in
  let last_attempt := last (omap attempt_of (schedule r.2)) in
  (r.1.1 = 0 ∧ last_attempt = Some None)
  ∨ (r.1.1 = 1 ∧ last_attempt ≠ Some None).
Proof.
  cbn zeta. rewrite (dl_loop_forgets link h k 5 0 2000000 st 0 w) by done.
  pose proof (dl_loop_status link h k 5 0 2000000 0 w) as Hst. cbn zeta in Hst.
  destruct (dl_loop E 5 link h k 0 2000000 0 w) as [[st' w'] out] eqn:Hrun.
  cbn [fst snd] in *.
  assert (Hp : policy E 0 2000000 (schedule out) (bool_decide (st' = 0))).
  { eapply dl_loop_policy; [| |exact Hrun]; [lia|simpl; lia]. }
  apply policy_retry_shape in Hp as (_ & _ & _ & Hok & _).
  destruct Hst as [->|[->|[-> _]]].
  - left. split; [done|]. by apply Hok.
  - left. split; [done|]. by apply Hok.
  - right. split; [done|]. intros Hlast. apply Hok in Hlast.
    by apply bool_decide_eq_true_1 in Hlast.
Qed.

(** X19: a file link sets the exit status by itself, to 0 when the
    last attempt of its download succeeds and to 1 when it fails,
    whatever the status was: the run from a file link on does not depend
    on the status the earlier arguments left, and when the last argument
    is a file link the exit status is the status of its download
    alone. *)
Theorem file_link_decides_status :
  (∀ link h k st (w : world E),
     let r := dl_loop E 5 link h k 0 2000000 st w in
     let last_attempt := last (omap attempt_of (schedule r.2)) in
     (r.1.1 = 0 ∧ last_attempt = Some None)
     ∨ (r.1.1 = 1 ∧ last_attempt ≠ Some None))
  ∧ (∀ av_i rest h k st st' (w : world E),
       classify (tool_convert_filename E av_i false) = FileRef h k →
       process_links E (av_i :: rest) st w
       = process_links E (av_i :: rest) st' w)
  ∧ (∀ pre av_i h k st (w : world E),
       opt_stream (g E w) = false →
       classify (tool_convert_filename E av_i false) = FileRef h k →
       (process_links E (pre ++ [av_i]) st w).1.1
       = (dl_loop E 5 (tool_convert_filename E av_i false) h k 0 2000000 0
            (process_links E pre st w).1.2).1.1).
Proof.
  split; [apply dl_loop_outcome|]. split.
  - intros av_i rest h k st st' w Hc. cbn [process_links]. rewrite Hc.
    by rewrite (dl_loop_forgets _ h k 5 0 2000000 st st' w).
  - intros pre av_i h k st w Hs Hc. rewrite process_links_app by done.
    destruct (process_links E pre st w) as [[st1 w1] out1].
    cbn [process_links fst snd]. rewrite Hc.
    rewrite (dl_loop_forgets _ h k 5 0 2000000 st1 0 w1) by done.
    destruct (dl_loop E 5 _ h k _ _ _ w1) as [[st2 w2] out2]. done.
Qed.

(** *** Every argument has its turn *)

Lemma dl_loop_first link h k fuel a sl st (w : world E) :
  a < 5 →
  ∃ err, SessionDl h k (dl_path (g E w)) err
         ∈ (dl_loop E (S fuel) link h k a sl st w).2.
Proof.
  intros Ha. cbn [dl_loop]. rewrite (proj2 (Z.ltb_lt a 5)) by done. cbn [negb].
  fold (dl_path (g E w)).
  destruct (after_xfer E _ w) as [w1 out_cb].
  exists (x_err (mega_session_dl E (s E w) (fs E w) h k (dl_path (g E w)))).
  destruct (x_err _) as [e|]; [|cbn [snd]; apply elem_of_app; right; by left].
  destruct (g_error_matches e _ _);
    [cbn [snd]; apply elem_of_app; right; by left|].
  destruct (dl_loop E fuel _ _ _ _ _ _ _) as [[st2 w2] out2].
  cbn [snd]. apply elem_of_app. right. by left.
Qed.

(** X20: outside stream mode no argument is passed over, whatever
    became of the arguments before it: a download is attempted for every
    file link, into the directory of the options; an attempt is made to
    open every folder link; and every other argument is answered by a
    warning. *)
Theorem every_argument_has_its_turn links :
  ∀ st (w : world E),
    opt_stream (g E w) = false →
    ∀ av_i, av_i ∈ links →
      let out := (process_links E links st w).2 in
      match classify (tool_convert_filename E av_i false) with
      | FileRef h k => ∃ err, SessionDl h k (Some (opt_path (g E w))) err ∈ out
      | FolderRef h k => ∃ err, OpenExpFolder h k err ∈ out
      | Invalid => skip_warning (tool_convert_filename E av_i false) ∈ out
      end.
Proof.
  induction links as [|av rest IH]; intros st w Hs av_i Hin; cbn zeta;
    [by apply elem_of_nil in Hin|].
  assert (Hrest : ∀ st1 (w1 : world E) out1,
    same_options (g E w) (g E w1) → av_i ∈ rest →
    match classify (tool_convert_filename E av_i false) with
    | FileRef h k =>
        ∃ err, SessionDl h k (Some (opt_path (g E w))) err
               ∈ out1 ++ (process_links E rest st1 w1).2
    | FolderRef h k =>
        ∃ err, OpenExpFolder h k err ∈ out1 ++ (process_links E rest st1 w1).2
    | Invalid =>
        skip_warning (tool_convert_filename E av_i false)
        ∈ out1 ++ (process_links E rest st1 w1).2
    end).
  { intros st1 w1 out1 (Hp & Hs1 & _) Hin1.
    specialize (IH st1 w1 (eq_trans Hs1 Hs) av_i Hin1). cbn zeta in IH.
    rewrite Hp in IH. destruct (classify _) as [h k|h k|].
    - destruct IH as [err ?]. exists err. apply elem_of_app. by right.
    - destruct IH as [err ?]. exists err. apply elem_of_app. by right.
    - apply elem_of_app. by right. }
  cbn [process_links].
  destruct (classify (tool_convert_filename E av false)) as [h k|h k|] eqn:Hc.
  - pose proof (dl_loop_first (tool_convert_filename E av false) h k 4
                  0 2000000 st w) as [err Hfirst]; [done|].
    pose proof (dl_loop_options (tool_convert_filename E av false) h k 5
                  0 2000000 st w) as Ho.
    destruct (dl_loop E 5 _ h k _ _ _ w) as [[st1 w1] out1].
    specialize (Hrest st1 w1 out1 Ho).
    destruct (process_links E rest st1 w1) as [[st2 w2] out2].
    cbn [fst snd] in *. apply elem_of_cons in Hin as [->|Hin]; [|by apply Hrest].
    rewrite Hc. exists err. apply elem_of_app. left.
    unfold dl_path in Hfirst. by rewrite Hs in Hfirst.
  - rewrite Hs.
    pose proof (dl_folder_options (tool_convert_filename E av false) h k st w)
      as Ho.
    assert (Hopen : ∃ err, OpenExpFolder h k err
              ∈ (dl_folder E (tool_convert_filename E av false) h k st w).2).
    { unfold dl_folder.
      destruct (mega_session_open_exp_folder E (s E w) h k) as [s1 [e|]].
      - eexists. by left.
      - exists None. cbn [g fs s].
        destruct (mega_session_ls E s1 "/" false) as [|root [|? ?]];
          try by left.
        destruct (bool_decide _); [|by left].
        destruct (dl_sync_dir E root _ _ _) as [[ok w2] out]. by left. }
    destruct (dl_folder E _ h k st w) as [[st1 w1] out1].
    specialize (Hrest st1 w1 out1 Ho).
    destruct (process_links E rest st1 w1) as [[st2 w2] out2].
    cbn [fst snd] in *. apply elem_of_cons in Hin as [->|Hin]; [|by apply Hrest].
    rewrite Hc. destruct Hopen as [err ?]. exists err. apply elem_of_app. by left.
  - specialize (Hrest st w [skip_warning (tool_convert_filename E av false)]
                  (same_options_refl _)).
    destruct (process_links E rest st w) as [[st2 w2] out2].
    cbn [fst snd] in *. apply elem_of_cons in Hin as [->|Hin]; [|by apply Hrest].
    rewrite Hc. by left.
Qed.

(** *** Streaming *)

(** X21: a file link streamed with [--path -] whose download
    succeeds at once: after the session has been started, the run
    consists of the download and of the data buffers of the session
    written to standard output in the order received; nothing else is
    written there, unless --print-names is given, which appends the name
    of the file to the data. The exit status is 0. *)
Theorem stream_output c fs0 av_1 h k :
  arg_path c = Some "-"%string →
  arg_links c = [av_1] →
  classify (tool_convert_filename E av_1 false) = FileRef h k →
  let x := mega_session_dl E (tool_start_session E 0) fs0 h k None in
  x_err x = None →
  exit_status (main E c fs0) = 0
  ∧ output (main E c fs0)
    = [StartSession 0; WatchStatus; SessionDl h k None None]
      ++ (Fwrite <$> omap data_buf (x_events x))
      ++ when (arg_print_names c)
           [Print (fmt_s (latest_name (x_events x)) +:+ nl)]
      ++ [Fini true].
Proof.
  intros Hpath Hlinks Hc x Herr. rewrite main_eq, Hlinks.
  assert (Hs : streaming c = true) by (unfold streaming; by rewrite Hpath).
  rewrite Hs. cbn [bool_decide decide_rel length andb negb]. cbn zeta.
  rewrite bool_decide_eq_false_2, bool_decide_eq_true_2 by done.
  cbn [negb process_links]. rewrite Hc. cbn [dl_loop].
  cbn [Z.ltb Z.compare negb g fs s startup opt_stream retry_notice when app].
  rewrite Hs. fold x. unfold after_xfer. cbn [g].
  pose proof (deliver_no_progress (x_events x) (startup c)) as Hout.
  pose proof (deliver_cur_file (x_events x) (startup c)) as Hcur.
  pose proof (deliver_opts (x_events x) (startup c)) as (_ & _ & Hn & Hp).
  destruct (deliver (x_events x) (startup c)) as [g1 out_cb].
  cbn [fst snd] in *. rewrite Herr. cbn [g fst snd exit_status output].
  rewrite Hn, Hp, Hcur, Hout; cbn [startup opt_noprogress opt_stream
    opt_print_names cur_file]; rewrite ?Hs, ?orb_true_r; try done.
  split; [done|]. cbn [negb when app].
  rewrite app_nil_r. cbn [app]. do 3 f_equal.
  rewrite <- !app_assoc. do 2 f_equal.
  by destruct (latest_name (x_events x)).
Qed.
End Runs.

(** *** The theorems at work *)

Import Dl.Scripted Examples.

Lemma watcher_streams_witness :
  let evs := [ MEGA_STATUS_FILEINFO "a.bin"; MEGA_STATUS_DATA "abc";
               MEGA_STATUS_PROGRESS 6 3; MEGA_STATUS_DATA "def" ] in
  opt_noprogress streaming_globals = true
  ∧ (deliver evs streaming_globals).2 = [Fwrite "abc"; Fwrite "def"].
Proof.
  cbn zeta. split; [reflexivity|].
  exact (proj2 (watcher_streams _ streaming_globals) eq_refl).
Defined.

Lemma progress_display_witness :
  let evs := [MEGA_STATUS_FILEINFO "a.part"; MEGA_STATUS_FILEINFO "a.bin"] in
  opt_noprogress verbose = false
  ∧ (deliver (evs ++ [MEGA_STATUS_PROGRESS 10 5]) verbose).2
    = (deliver evs verbose).2
      ++ [ShowProgress (Some "a.bin"%string) (MEGA_STATUS_PROGRESS 10 5)].
Proof.
  cbn zeta. split; [reflexivity|].
  exact (proj2 (progress_display _ verbose) eq_refl 10 5).
Defined.

Lemma retry_loops_shape_witness :
  let E := scripted always_http in
  let w := world_of always_http quiet cwd in
  let r := dl_loop E 5 file_link_1 "AAAAAAAA" key43 0 2000000 0 w in
  r.1.1 = 1
  ∧ omap wait_of (schedule r.2) = [2000000; 4000000; 8000000; 16000000]
  ∧ retry_shape E (schedule r.2) (bool_decide (r.1.1 = 0)).
Proof.
  cbn zeta. split; [by vm_compute|]. split; [by vm_compute|].
  set (r := dl_loop _ _ _ _ _ _ _ _ _).
  apply (proj2 (retry_loops_shape (scripted always_http)) file_link_1
           "AAAAAAAA" key43 0 (world_of always_http quiet cwd)
           r.1.1 r.1.2 r.2).
  unfold r. by destruct (dl_loop _ _ _ _ _ _ _ _ _) as [[? ?] ?].
Defined.

Lemma dl_sync_dir_rerun_witness :
  let E := scripted tree_ok_session in
  let w := world_of tree_ok_session quiet saved in
  mirrored (fs E w) "." tree = true
  ∧ dl_sync_dir E tree "." "/root" w
    = (false, w, already_exists <$> ["./a"; "./d/b"; "./c"]%string).
Proof.
  cbn zeta.
  assert (H : mirrored (fs (scripted tree_ok_session)
                 (world_of tree_ok_session quiet saved)) "." tree = true)
    by (by vm_compute).
  split; [exact H|].
  exact (dl_sync_dir_rerun (scripted tree_ok_session) tree "." "/root" _ H).
Defined.

Lemma walk_prints_names_witness :
  let E := scripted tree_ok_session in
  let w := world_of tree_ok_session listing cwd in
  let r := dl_sync_dir E tree "." "/root" w in
  opt_noprogress (g E w) = true
  ∧ Forall (fun e => is_usleep e = false) r.2
  ∧ omap printed r.2 = ["./a" +:+ nl; "./d/b" +:+ nl; "./c" +:+ nl]
  ∧ omap printed r.2
    = if opt_print_names (g E w) then omap fetched_line r.2 else [].
Proof.
  cbn zeta. set (r := dl_sync_dir _ _ _ _ _).
  assert (H : Forall (fun e => is_usleep e = false) r.2)
    by (vm_compute; repeat constructor).
  split; [reflexivity|]. split; [exact H|]. split; [by vm_compute|].
  apply (walk_prints_names (scripted tree_ok_session) tree "." "/root"
           (world_of tree_ok_session listing cwd) r.1.1 r.1.2 r.2);
    [reflexivity| |exact H].
  unfold r. by destruct (dl_sync_dir _ _ _ _ _) as [[? ?] ?].
Defined.

Lemma dl_sync_dir_frame_witness :
  let E := scripted tree_session in
  let w := world_of tree_session quiet cwd in
  let r := dl_sync_dir E tree "." "/root" w in
  fs E r.1.2 !! "./d/b"%string ≠ fs E w !! "./d/b"%string
  ∧ tree_path tree "." "./d/b".
Proof.
  cbn zeta. set (r := dl_sync_dir _ _ _ _ _).
  assert (H : fs (scripted tree_session) r.1.2 !! "./d/b"%string
              ≠ fs (scripted tree_session) (world_of tree_session quiet cwd)
                  !! "./d/b"%string) by (by vm_compute).
  split; [exact H|].
  apply (dl_sync_dir_frame (scripted tree_session) (scripted_frame _) tree
           "." "/root" (world_of tree_session quiet cwd) r.1.1 r.1.2 r.2);
    [|exact H].
  unfold r. by destruct (dl_sync_dir _ _ _ _ _) as [[? ?] ?].
Defined.

Lemma folder_link_complete_witness :
  let E := scripted tree_ok_session in
  let w := world_of tree_ok_session quiet cwd in
  let r := dl_folder E folder_link "CCCCCCCC" key22 0 w in
  r.1.1 = 0
  ∧ (r.1.1 = 1
     ∨ (r.1.1 = 0
        ∧ ∃ s1 root,
            mega_session_open_exp_folder E (s E w) "CCCCCCCC" key22 = (s1, None)
            ∧ mega_session_ls E s1 "/" false = [root]
            ∧ mirrored (fs E r.1.2) (opt_path (g E w)) root = true)).
Proof.
  cbn zeta. split; [by vm_compute|].
  set (r := dl_folder _ _ _ _ _ _).
  apply (folder_link_complete (scripted tree_ok_session)
           (scripted_frame _) (scripted_creates _) folder_link "CCCCCCCC" key22
           0 (world_of tree_ok_session quiet cwd) r.1.1 r.1.2 r.2).
  unfold r. by destruct (dl_folder _ _ _ _ _ _) as [[? ?] ?].
Defined.

Lemma download_destination_witness :
  let E := scripted two_buffers in
  let o := main E stream_one cwd in
  SessionDl "AAAAAAAA" key43 None None ∈ output o
  ∧ opt_stream (final_globals o) = true
  ∧ opt_noprogress (final_globals o) = true.
Proof.
  cbn zeta.
  destruct (download_destination (scripted two_buffers) stream_one cwd)
    as (_ & Hs & Hn & _ & _).
  split; [vm_compute; do 2 right; left|]. split; [exact Hs|exact Hn].
Defined.

Lemma only_invalid_links_witness :
  let E := scripted fail_then_succeed in
  let o := main E no_links cwd in
  exit_status o = 0 ∧ final_fs o = cwd
  ∧ output o
    = [StartSession 0; WatchStatus]
      ++ ((fun av_i => skip_warning (tool_convert_filename E av_i false))
          <$> arg_links no_links)
      ++ [Fini true].
Proof.
  cbn zeta. apply only_invalid_links.
  - done.
  - by vm_compute.
  - repeat constructor.
Defined.

Lemma file_link_decides_status_witness :
  let E := scripted fail_then_succeed in
  let w := world_of fail_then_succeed quiet cwd in
  opt_stream (g E w) = false
  ∧ classify (tool_convert_filename E file_link_2 false)
    = FileRef "BBBBBBBB" key43
  ∧ (process_links E ([file_link_1] ++ [file_link_2]) 0 w).1.1
    = (dl_loop E 5 (tool_convert_filename E file_link_2 false) "BBBBBBBB" key43
         0 2000000 0 (process_links E [file_link_1] 0 w).1.2).1.1.
Proof.
  cbn zeta.
  assert (H : classify (tool_convert_filename (scripted fail_then_succeed)
                          file_link_2 false) = FileRef "BBBBBBBB" key43)
    by (by vm_compute).
  split; [reflexivity|]. split; [exact H|].
  exact (proj2 (proj2 (file_link_decides_status (scripted fail_then_succeed)))
           [file_link_1] file_link_2 "BBBBBBBB" key43 0
           (world_of fail_then_succeed quiet cwd) eq_refl H).
Defined.

Lemma stream_output_witness :
  let E := scripted two_buffers in
  exit_status (main E stream_one cwd) = 0
  ∧ output (main E stream_one cwd)
    = [ StartSession 0; WatchStatus; SessionDl "AAAAAAAA" key43 None None;
        Fwrite "abc"; Fwrite "def"; Print ("a.bin" +:+ nl); Fini true ].
Proof.
  cbn zeta.
  apply (stream_output (scripted two_buffers) stream_one cwd file_link_1
           "AAAAAAAA" key43); by vm_compute.
Defined.

Lemma every_argument_has_its_turn_witness :
  let E := scripted fail_then_succeed in
  let w := world_of fail_then_succeed quiet cwd in
  let out := (process_links E mixed 0 w).2 in
  (∃ err, SessionDl "AAAAAAAA" key43 (Some "."%string) err ∈ out)
  ∧ skip_warning "hello" ∈ out
  ∧ ∃ err, OpenExpFolder "CCCCCCCC" key22 err ∈ out.
Proof.
  cbn zeta.
  pose proof (every_argument_has_its_turn (scripted fail_then_succeed) mixed 0
                (world_of fail_then_succeed quiet cwd) eq_refl) as H.
  split; [|split].
  - apply (H file_link_1). by left.
  - apply (H "hello"%string). right. by left.
  - apply (H folder_link). right. right. by left.
Defined.

End RunFacts.
